(** * sync-to-qiita: the markup converter and the incremental sync decision

    A shallow embedding of [scripts/utils/html-to-markdown.js]
    (class [HtmlToMarkdownConverter]), of
    [scripts/sync-microcms-to-qiita.js] (class [MicroCMSQiitaSync]) and of
    [scripts/test-sync.js] (class [TestSync]).

    Conventions.
    - A JavaScript string is a [string]; each character stands for one
      UTF-16 code unit in the range 0..255, so [String.length] is the
      [.length] of the source.
    - A value that may be [undefined] or [null] is an [option].
    - A call that may throw returns a [Completion].
    - The [sync-history.json] object is a [gmap] from article id to record,
      which holds its own keys; reading [history.articles[id]] also finds the
      members a plain object inherits from [Object.prototype]
      ([articleHistoryOf]).
    - The turndown library is not part of the repository. [convert] takes
      its call [turndown(html)] as a section variable; the rules are
      functions of the content the library hands them; and where a property
      speaks of a whole tree the walk of the engine, with its rule for bold
      and emphasis elements, is the one the specification describes, with
      the escaping of text as a variable. *)

From Stdlib Require Import Ascii ZArith Bool Lia.
From stdpp Require Import gmap strings list fin_maps.

Local Open Scope Z_scope.
Local Open Scope nat_scope.
Local Set Warnings "-register-all".

(** ** JavaScript strings and the regular expressions of the source *)

Module Js.

Definition LF : ascii := "010"%char.
Definition SP : ascii := " "%char.
Definition nl : string := String LF "".

(** [c === '\n'] *)
Definition isLF (c : ascii) : bool := Ascii.eqb c LF.

(** The class [\s] of a regular expression, which is also what
    [String.prototype.trim] removes: TAB, LF, VT, FF, CR, SPACE and NBSP
    among the code units below 256. *)
Definition isSpace (c : ascii) : bool :=
  let n := nat_of_ascii c in
  ((9 <=? n) && (n <=? 13)) || (n =? 32) || (n =? 160).

(** The class [\w]: [A-Za-z0-9_]. *)
Definition isWord (c : ascii) : bool :=
  let n := nat_of_ascii c in
  ((48 <=? n) && (n <=? 57)) || ((65 <=? n) && (n <=? 90))
  || ((97 <=? n) && (n <=? 122)) || (n =? 95).

Definition isStar (c : ascii) : bool := Ascii.eqb c "*"%char.
Definition isPipe (c : ascii) : bool := Ascii.eqb c "|"%char.
Definition isBackslash (c : ascii) : bool := Ascii.eqb c "\"%char.

Definition isEmpty (s : string) : bool :=
  match s with EmptyString => true | String _ _ => false end.

(** JavaScript truthiness of a value that is a string or absent. *)
Definition truthy (v : option string) : bool :=
  match v with Some s => negb (isEmpty s) | None => false end.

(** [a || b] on such values. *)
Definition or_else (a b : option string) : option string :=
  if truthy a then a else b.

Fixpoint all (p : ascii -> bool) (s : string) : bool :=
  match s with
  | EmptyString => true
  | String c r => p c && all p r
  end.

Fixpoint dropWhile (p : ascii -> bool) (s : string) : string :=
  match s with
  | EmptyString => EmptyString
  | String c r => if p c then dropWhile p r else s
  end.

(** [s.replace(/C+$/, by)] for a character class [C]: the leftmost position
    from which only characters of [C] remain starts the (single) match. *)
Fixpoint replaceTrailing (p : ascii -> bool) (by_ : string) (s : string) : string :=
  match s with
  | EmptyString => EmptyString
  | String c r => if p c && all p r then by_ else String c (replaceTrailing p by_ r)
  end.

(** The first character of [s] is in the class [p]; likewise the last. *)
Definition firstIs (p : ascii -> bool) (s : string) : bool :=
  match s with
  | EmptyString => false
  | String c _ => p c
  end.

Fixpoint lastIs (p : ascii -> bool) (s : string) : bool :=
  match s with
  | EmptyString => false
  | String c EmptyString => p c
  | String _ r => lastIs p r
  end.

(** [s.trim()] *)
Definition trim (s : string) : string :=
  replaceTrailing isSpace "" (dropWhile isSpace s).

(** [s.replace(/x/g, by)] for a single character [x]. *)
Fixpoint replaceChar (p : ascii -> bool) (by_ : string) (s : string) : string :=
  match s with
  | EmptyString => EmptyString
  | String c r => if p c then by_ +:+ replaceChar p by_ r else String c (replaceChar p by_ r)
  end.

(** [/\n$/.test(s)]: without the [m] flag [$] is the end of the input. *)
Fixpoint endsWithLF (s : string) : bool :=
  match s with
  | EmptyString => false
  | String c EmptyString => isLF c
  | String _ r => endsWithLF r
  end.

(** [s.replace(/\n{3,}/g, '\n\n')]: [run] counts the line breaks just read. *)
Fixpoint collapseLFs (run : nat) (s : string) : string :=
  match s with
  | EmptyString => EmptyString
  | String c r =>
      if isLF c
      then if run <? 2 then String c (collapseLFs (S run) r) else collapseLFs (S run) r
      else String c (collapseLFs 0 r)
  end.

Fixpoint concat (l : list string) : string :=
  match l with
  | [] => ""
  | s :: r => s +:+ concat r
  end.

(** [l.join(sep)] *)
Fixpoint join (sep : string) (l : list string) : string :=
  match l with
  | [] => ""
  | [s] => s
  | s :: r => s +:+ sep +:+ join sep r
  end.

(** [s.startsWith(p)], with the rest of [s] after [p]. *)
Fixpoint stripPrefix (p s : string) : option string :=
  match p, s with
  | EmptyString, _ => Some s
  | String a p', String b s' => if Ascii.eqb a b then stripPrefix p' s' else None
  | String _ _, EmptyString => None
  end.

(** [s.endsWith(p)] *)
Fixpoint endsWith (p s : string) : bool :=
  String.eqb p s ||
  match s with
  | EmptyString => false
  | String _ r => endsWith p r
  end.

(** [s.includes(p)] *)
Fixpoint includes (p s : string) : bool :=
  match stripPrefix p s with
  | Some _ => true
  | None => match s with
            | EmptyString => false
            | String _ r => includes p r
            end
  end.

(** [s.split(',')] *)
Fixpoint split (sep : ascii) (s : string) : list string :=
  match s with
  | EmptyString => [""]
  | String c r =>
      if Ascii.eqb c sep then "" :: split sep r
      else match split sep r with
           | [] => [String c ""]
           | w :: ws => String c w :: ws
           end
  end.

(** The outcome of a call that may throw. *)
Inductive Completion (A : Type) : Type :=
  | Returns (a : A)
  | Throws.
Arguments Returns {A} a.
Arguments Throws {A}.

#[global] Instance completion_ret : MRet Completion := fun A a => Returns a.
#[global] Instance completion_bind : MBind Completion := fun A B k c =>
  match c with
  | Returns a => k a
  | Throws => Throws
  end.

(** [try { body } catch (error) { handler }] *)
Definition try_catch {A} (body handler : Completion A) : Completion A :=
  match body with
  | Returns a => Returns a
  | Throws => handler
  end.

End Js.

(** ** The node model handed to the rules *)

Module Dom.

Inductive Node : Type :=
  | Text (data : string)
  | Element (nodeName : string) (attributes : list (string * string))
            (childNodes : list Node).

(** Where a node sits: under which parent, between which siblings. *)
Inductive Path : Type :=
  | Root
  | Below (parentPath : Path) (parentName : string) (before after : list Node).

Definition nodeName (n : Node) : string :=
  match n with
  | Text _ => "#text"
  | Element name _ _ => name
  end.

Definition isElement (n : Node) : bool :=
  match n with Text _ => false | Element _ _ _ => true end.

Definition childNodes (n : Node) : list Node :=
  match n with Text _ => [] | Element _ _ kids => kids end.

(** [node.children]: the element children. *)
Definition children (n : Node) : list Node := filter (fun k => isElement k = true) (childNodes n).

(** [node.firstChild] *)
Definition firstChild (n : Node) : option Node := head (childNodes n).

(** [node.getAttribute(name)]: [None] is [null]. *)
Definition getAttribute (name : string) (n : Node) : option string :=
  match n with
  | Text _ => None
  | Element _ attrs _ => snd <$> List.find (fun a => String.eqb (fst a) name) attrs
  end.

(** [node.textContent] *)
Fixpoint textContent (n : Node) : string :=
  match n with
  | Text d => d
  | Element _ _ kids =>
      (fix all_text (l : list Node) : string :=
         match l with
         | [] => ""
         | k :: r => textContent k +:+ all_text r
         end) kids
  end.

(** [node.parentNode.nodeName] *)
Definition parentNodeName (p : Path) : option string :=
  match p with
  | Root => None
  | Below _ name _ _ => Some name
  end.

(** [node.previousElementSibling?.nodeName] *)
Definition previousElementSiblingName (p : Path) : option string :=
  match p with
  | Root => None
  | Below _ _ before _ => nodeName <$> last (filter (fun k => isElement k = true) before)
  end.

(** [node.parentNode.previousElementSibling?.nodeName] *)
Definition parentPreviousElementSiblingName (p : Path) : option string :=
  match p with
  | Root => None
  | Below up _ _ _ => previousElementSiblingName up
  end.

(** [node === node.parentNode.firstElementChild], for an element [node]. *)
Definition isFirstElementChild (p : Path) : bool :=
  match p with
  | Root => false
  | Below _ _ before _ => forallb (fun k => negb (isElement k)) before
  end.

(** [node.nextSibling] is not [null]. *)
Definition hasNextSibling (p : Path) : bool :=
  match p with
  | Root => false
  | Below _ _ _ after => match after with [] => false | _ :: _ => true end
  end.

End Dom.

(** ** [HtmlToMarkdownConverter] *)

Module Converter.
Import Js Dom.

(** The options the constructor gives to [TurndownService]. *)
Record Options : Type := {
  headingStyle : string;
  codeBlockStyle : string;
  bulletListMarker : string;
  strongDelimiter : string;
  emDelimiter : string
}.

Definition options : Options := {|
  headingStyle := "atx";
  codeBlockStyle := "fenced";
  bulletListMarker := "-";
  strongDelimiter := "**";
  emDelimiter := "*"
|}.

(** A rule of [addRule]: [filter] and [replacement (content, node, options)]. *)
Record Rule : Type := {
  filter : Node -> bool;
  replacement : string -> Path -> Node -> Options -> string
}.

(** [c.toLowerCase()] on the letters A-Z. *)
Definition lowerChar (c : ascii) : ascii :=
  let n := nat_of_ascii c in
  if (65 <=? n) && (n <=? 90) then ascii_of_nat (n + 32) else c.

Fixpoint toLowerCase (s : string) : string :=
  match s with
  | EmptyString => EmptyString
  | String c r => String (lowerChar c) (toLowerCase r)
  end.

(** A filter given as a tag name selects the elements whose
    [nodeName.toLowerCase()] is that name. *)
Definition tag (name : string) (n : Node) : bool :=
  isElement n && String.eqb (toLowerCase (nodeName n)) name.

(** *** [setupCustomRules] *)

Definition strongRule : Rule := {|
  filter := tag "strong";
  replacement := fun content _ _ _ =>
    let trimmedContent := trim content in
    if isEmpty trimmedContent then "" else "**" +:+ trimmedContent +:+ "**"
|}.

Fixpoint takeWhile (p : ascii -> bool) (s : string) : string :=
  match s with
  | EmptyString => EmptyString
  | String c r => if p c then String c (takeWhile p r) else EmptyString
  end.

(** [className.match(/language-(\w+)/)]: the first group of the leftmost match. *)
Fixpoint matchLanguage (className : string) : option string :=
  let here :=
    match stripPrefix "language-" className with
    | Some rest => let w := takeWhile isWord rest in
                   if isEmpty w then None else Some w
    | None => None
    end in
  match here with
  | Some w => Some w
  | None => match className with
            | EmptyString => None
            | String _ r => matchLanguage r
            end
  end.

Definition fence : string := "```".

Definition codeBlockRule : Rule := {|
  filter := fun node =>
    String.eqb (nodeName node) "PRE" &&
    match firstChild node with
    | Some c => String.eqb (nodeName c) "CODE"
    | None => false
    end;
  replacement := fun _ _ node _ =>
    match firstChild node with
    | Some code =>
        let className := default "" (getAttribute "class" code) in
        let lang := default "" (matchLanguage className) in
        nl +:+ nl +:+ fence +:+ lang +:+ nl +:+ textContent code +:+ nl +:+ fence +:+ nl +:+ nl
    | None => ""
    end
|}.

Definition quote : string := String "034"%char "".

Definition imageRule : Rule := {|
  filter := tag "img";
  replacement := fun _ _ node _ =>
    let alt := default "" (getAttribute "alt" node) in
    let src := default "" (getAttribute "src" node) in
    let title := getAttribute "title" node in
    let titlePart := if truthy title then " " +:+ quote +:+ default "" title +:+ quote else "" in
    if isEmpty src then "" else "![" +:+ alt +:+ "](" +:+ src +:+ titlePart +:+ ")"
|}.

Definition indentUnit : string := "    ".

Definition listItemRule : Rule := {|
  filter := tag "li";
  replacement := fun content path _ opts =>
    let content :=
      replaceChar isLF (nl +:+ indentUnit)
        (replaceTrailing isLF nl
           (dropWhile isLF content)) in
    let prefix := bulletListMarker opts +:+ " " in
    prefix +:+ content +:+
      (if hasNextSibling path && negb (endsWithLF content) then nl else "")
|}.

Definition tableRule : Rule := {|
  filter := tag "table";
  replacement := fun content _ _ _ => nl +:+ nl +:+ content +:+ nl +:+ nl
|}.

Definition isHeaderRow (path : Path) : bool :=
  bool_decide (parentNodeName path = Some "THEAD")
  || (bool_decide (parentNodeName path = Some "TBODY")
      && bool_decide (parentPreviousElementSiblingName path <> Some "THEAD")
      && isFirstElementChild path).

(** [Array(cellCount).fill(' --- ').join(' |')] between ['|'] and [' |'] *)
Definition separatorLine (cellCount : nat) : string :=
  "|" +:+ join " |" (replicate cellCount " --- ") +:+ " |".

Definition tableRowRule : Rule := {|
  filter := tag "tr";
  replacement := fun content path node _ =>
    let row := "|" +:+ content in
    let row :=
      if isHeaderRow path
      then let cellCount := length (children node) in
           row +:+ nl +:+ separatorLine cellCount
      else row in
    row +:+ nl
|}.

Definition tableCellRule : Rule := {|
  filter := fun node => tag "th" node || tag "td" node;
  replacement := fun content _ _ _ =>
    let cleanContent :=
      trim (replaceChar isPipe "\|" (replaceChar isLF " " content)) in
    " " +:+ cleanContent +:+ " |"
|}.

(** The rules in the order [setupCustomRules] adds them. *)
Definition customRules : list (string * Rule) :=
  [ ("strong", strongRule); ("codeBlock", codeBlockRule); ("image", imageRule);
    ("listItem", listItemRule); ("table", tableRule); ("tableRow", tableRowRule);
    ("tableCell", tableCellRule) ].

(** The added rule that selects a node, if any. *)
Definition forNode (n : Node) : option Rule :=
  snd <$> List.find (fun r => filter (snd r) n) customRules.

(** *** The rules of the engine for bold and emphasis *)

(** Modelled from the spec: the rule of the transduction engine for a bold or
    an emphasis element, which is part of the turndown library and not code
    of the repository. By section 4.1 the content is trimmed of leading and
    trailing whitespace before the delimiter is applied; a content that is
    blank renders as nothing, as in the rule the repository adds for
    [strong]. *)
Definition delimited (names : list string) (delimiter : Options -> string) : Rule := {|
  filter := fun node => existsb (fun name => tag name node) names;
  replacement := fun content _ _ opts =>
    let trimmedContent := trim content in
    if isEmpty trimmedContent then ""
    else delimiter opts +:+ trimmedContent +:+ delimiter opts
|}.

(** Modelled from the spec: the bold and emphasis rules of the engine, tried
    after the added rules: STRONG and B with the strong delimiter, EM and I
    with the emphasis delimiter. *)
Definition libraryRules : list Rule :=
  [ delimited ["strong"; "b"] strongDelimiter; delimited ["em"; "i"] emDelimiter ].

Definition libraryRule (n : Node) : option Rule :=
  List.find (fun r => filter r n) libraryRules.

(** *** The walk of the engine *)

Section Engine.

(** The engine's escaping of the text of a text node. *)
Variable escape : string -> string.

(** Modelled from the spec: the walk of the transduction engine, which is
    the turndown library and not code of the repository. Children are
    rendered first, in their order, and their strings concatenated; the
    added rule that selects the node renders it from that content; a bold
    or emphasis element no added rule selects is rendered by the rule of the
    engine for it; any other node falls to the default rule, which passes
    the content of an element through and renders a text node as its escaped
    text. *)
Fixpoint replacementForNode (path : Path) (node : Node) : string :=
  match node with
  | Text data => escape data
  | Element name _ kids =>
      let content :=
        (fix process (before after : list Node) : string :=
           match after with
           | [] => ""
           | k :: rest =>
               replacementForNode (Below path name before rest) k
               +:+ process (before ++ [k]) rest
           end) [] kids in
      match forNode node with
      | Some rule => replacement rule content path node options
      | None =>
          match libraryRule node with
          | Some rule => replacement rule content path node options
          | None => content
          end
      end
  end.

(** The content of an element: its children rendered in order. *)
Fixpoint process (path : Path) (name : string) (before after : list Node) : string :=
  match after with
  | [] => ""
  | k :: rest =>
      replacementForNode (Below path name before rest) k
      +:+ process path name (before ++ [k]) rest
  end.

Definition transduce (root : Node) : string := replacementForNode Root root.

End Engine.

(** *** [fixBoldSpacing] *)

(** The text before the next [*], and the rest from that [*] on. *)
Fixpoint spanNoStar (s : string) : string * string :=
  match s with
  | EmptyString => ("", "")
  | String c r =>
      if isStar c then ("", s)
      else let '(y, t) := spanNoStar r in (String c y, t)
  end.

(** A match of [/\*\*[^*]*?\*\*/] that starts at the head of [s]: the text
    between the two delimiters. Nothing between them can be a [*], so the
    closing delimiter is at the first [*] after the opening one. *)
Definition boldAt (s : string) : option string :=
  match stripPrefix "**" s with
  | Some r =>
      let '(y, t) := spanNoStar r in
      match stripPrefix "**" t with
      | Some _ => Some y
      | None => None
      end
  | None => None
  end.

(** [markdown.match(/\*\*[^*]*?\*\*/g) || []]: the matches from left to
    right, none overlapping; [skip] characters belong to the last match. *)
Fixpoint boldParts (skip : nat) (s : string) : list string :=
  match s with
  | EmptyString => []
  | String _ r =>
      match skip with
      | S k => boldParts k r
      | O =>
          match boldAt s with
          | Some y => ("**" +:+ y +:+ "**") :: boldParts (String.length y + 3) r
          | None => boldParts 0 r
          end
      end
  end.

(** A match of [/\*\*\s+[^*]*?\s+\*\*/] at the head of [s]: the text between
    the delimiters opens with a blank and closes with another one. *)
Definition paddedAt (s : string) : bool :=
  match boldAt s with
  | Some y => (2 <=? String.length y) && firstIs isSpace y && lastIs isSpace y
  | None => false
  end.

(** [/\*\*\s+[^*]*?\s+\*\*/.test(s)] *)
Fixpoint testPadded (s : string) : bool :=
  paddedAt s ||
  match s with
  | EmptyString => false
  | String _ r => testPadded r
  end.

Fixpoint penultimate (s : string) : string :=
  match s with
  | String c (String _ EmptyString) => String c ""
  | String _ r => penultimate r
  | EmptyString => ""
  end.

(** A match of [/\*\*\s+([^*]+?)\s+\*\*/] at the head of [s]: its group.
    The first [\s+] is greedy and the group lazy, so the group is the text
    between the delimiters without its blanks at both ends; when that text
    is all blank the group is its last character but one. *)
Definition paddedGroupAt (s : string) : option string :=
  match boldAt s with
  | Some y =>
      if (3 <=? String.length y) && firstIs isSpace y && lastIs isSpace y
      then Some (if all isSpace y then penultimate y else trim y)
      else None
  | None => None
  end.

(** [markdown.replace(/\*\*\s+([^*]+?)\s+\*\*/g, '**$1**')] *)
Fixpoint replacePadded (skip : nat) (s : string) : string :=
  match s with
  | EmptyString => ""
  | String c r =>
      match skip with
      | S k => replacePadded k r
      | O =>
          match paddedGroupAt s, boldAt s with
          | Some g, Some y => "**" +:+ g +:+ "**" +:+ replacePadded (String.length y + 3) r
          | _, _ => String c (replacePadded 0 r)
          end
      end
  end.

Definition fixBoldSpacing (markdown : string) : string :=
  let boldParts := boldParts 0 markdown in
  let hasBadSpacing := existsb testPadded boldParts in
  if negb hasBadSpacing then markdown
  else replacePadded 0 markdown.

(** *** [convert] *)

(** A value of JavaScript, as far as [convert] tells values apart. *)
Inductive Value : Type :=
  | VUndefined
  | VNull
  | VString (s : string)
  | VOther (isTruthy : bool).   (* a number, a boolean, an object *)

(** The [options] argument of [convert]. *)
Record ConvertOptions : Type := {
  excerpt : Value;
  originalUrl : option string;
  originalTitle : Value
}.

Definition noOptions : ConvertOptions :=
  {| excerpt := VUndefined; originalUrl := None; originalTitle := VUndefined |}.

(** The footer, non-ASCII characters standing as their UTF-8 bytes. *)
Definition generateFooter : string :=
"---

## 🌟 お知らせ

この記事が役に立ったら、ぜひフォローやいいねをお願いします！

**🐦 X**: [@nabe_AI_dev](https://x.com/nabe_AI_dev)
AI開発の最新情報や技術Tips、開発の進捗などを定期的にツイートしています。

**📝 ブログ**: [AI Developer Blog](https://ai-developer-blog.vercel.app/)
AIツール開発に関する詳細な記事や実装事例を公開中です。".

(** [.replace(/\n{3,}/g, '\n\n').replace(/^\n+/, '').replace(/\n+$/, '')] *)
Definition tidy (markdown : string) : string :=
  replaceTrailing isLF "" (dropWhile isLF (collapseLFs 0 markdown)).

Section Convert.

(** [this.turndownService.turndown(html)]: the library call, which may throw. *)
Variable turndown : string -> Completion string.

(** The excerpt step: [if (options.excerpt && options.excerpt.trim()) ...]. *)
Definition withExcerpt (options : ConvertOptions) (markdown : string) : Completion string :=
  match excerpt options with
  | VString e =>
      if negb (isEmpty e) && negb (isEmpty (trim e))
      then excerptMarkdown ← turndown e;
           mret (if negb (isEmpty excerptMarkdown)
                 then excerptMarkdown +:+ nl +:+ nl +:+ markdown
                 else markdown)
      else mret markdown
  | VOther true => Throws        (* [options.excerpt.trim] is not a function *)
  | VOther false | VUndefined | VNull => mret markdown
  end.

(** The body of the [try] block. *)
Definition convertBody (html : string) (options : ConvertOptions) : Completion string :=
  markdown ← turndown html;
  let markdown := fixBoldSpacing markdown in
  let markdown := tidy markdown in
  markdown ← withExcerpt options markdown;
  let footerSection := generateFooter in
  mret (markdown +:+ nl +:+ nl +:+ footerSection).

Definition convert (html : Value) (options : ConvertOptions) : Completion string :=
  match html with
  | VString (String _ _ as html) =>
      try_catch (convertBody html options) (Returns html)
  | VString EmptyString | VUndefined | VNull | VOther _ => Returns ""
  end.

End Convert.

(** *** [processTags] *)

(** One entry of [categories]. *)
Inductive Category : Type :=
  | CString (s : string)
  | CObject (name title : option string)
  | CNothing.                     (* [null], [undefined] *)

Inductive Categories : Type :=
  | CArray (l : list Category)
  | CSingle (c : Category).

Record QiitaTag : Type := { name : string }.

(** What one category pushes on [allTags]. *)
Definition pushed (category : Category) : list string :=
  match category with
  | CString s => if negb (isEmpty s) then [s] else []
  | CObject (Some n) title =>
      if negb (isEmpty n) then [n]
      else match title with
           | Some t => if negb (isEmpty t) then [t] else []
           | None => []
           end
  | CObject None (Some t) => if negb (isEmpty t) then [t] else []
  | CObject None None => []
  | CNothing => []
  end.

(** [set.add(x)], the set kept in insertion order. *)
Definition setAdd (seen : list string) (x : string) : list string :=
  if bool_decide (x ∈ seen) then seen else seen ++ [x].

(** [[...new Set(l)]] *)
Definition newSet (l : list string) : list string := fold_left setAdd l [].

(** [l.slice(0, end)] *)
Definition slice0 {A} (l : list A) (end_ : Z) : list A :=
  let len := Z.of_nat (length l) in
  let k := if (end_ <? 0)%Z then Z.max (len + end_) 0 else Z.min end_ len in
  take (Z.to_nat k) l.

Definition processTags (categories : Categories) (tags : Value) (maxTags : Z)
  : list QiitaTag :=
  let allTags :=
    match categories with
    | CArray l => flat_map pushed l
    | CSingle c => pushed c
    end in
  let allTags :=
    match tags with
    | VString (String _ _ as tags) =>
        let tagArray :=
          List.filter (fun tag => 0 <? String.length tag)
            (map trim (split ","%char tags)) in
        allTags ++ tagArray
    | _ => allTags
    end in
  let uniqueTags :=
    slice0
      (List.filter
         (fun tag =>
            if isEmpty tag then false
            else let trimmed := trim tag in
                 (0 <? String.length trimmed) && (String.length trimmed <=? 20))
         (newSet allTags))
      maxTags in
  let uniqueTags := match uniqueTags with [] => ["AI"] | _ => uniqueTags end in
  map (fun tag => {| name := trim tag |}) uniqueTags.

End Converter.

(** ** [MicroCMSQiitaSync] *)

Module Sync.
Import Js.

(** An article as microCMS returns it. *)
Record Article : Type := {
  id : string;
  title : string;
  content : Converter.Value;
  excerpt : Converter.Value;
  category : Converter.Categories;
  tags : Converter.Value;
  publishedAt : option string;
  updatedAt : option string;
  revisedAt : option string
}.

(** An entry of [history.articles]; [historyTitle] is its [title] field. *)
Record ArticleHistory : Type := {
  qiitaId : string;
  historyTitle : string;
  lastSyncedAt : string;
  microCMSUpdatedAt : option string
}.

(** The object of [sync-history.json]. *)
Record History : Type := {
  lastSyncTime : option string;
  articles : gmap string ArticleHistory
}.

(** What [loadSyncHistory] returns when there is no file. *)
Definition emptyHistory : History := {| lastSyncTime := None; articles := ∅ |}.

(** The names of the members that [history.articles], a plain object,
    inherits from [Object.prototype]. *)
Definition objectPrototype : list string :=
  [ "constructor"; "__defineGetter__"; "__defineSetter__"; "hasOwnProperty";
    "__lookupGetter__"; "__lookupSetter__"; "isPrototypeOf";
    "propertyIsEnumerable"; "toString"; "valueOf"; "__proto__";
    "toLocaleString" ].

(** What [history.articles[id]] evaluates to: the entry stored under the id;
    else, for the name of an inherited member, that member, which is truthy
    and has none of the fields of an entry; else [undefined]. *)
Inductive Found : Type :=
  | Entry (articleHistory : ArticleHistory)
  | Inherited
  | Undefined.

Definition articleHistoryOf (articles : gmap string ArticleHistory) (id : string)
  : Found :=
  match articles !! id with
  | Some articleHistory => Entry articleHistory
  | None => if bool_decide (id ∈ objectPrototype) then Inherited else Undefined
  end.

Inductive Action : Type := create | update | skip.

(** The object [shouldSyncArticle] returns; [decidedQiitaId] is its
    [qiitaId] field. *)
Record Decision : Type := {
  shouldSync : bool;
  action : Action;
  decidedQiitaId : option string
}.

(** The body of a request to Qiita. *)
Record Payload : Type := {
  payloadTitle : string;
  body : string;
  payloadTags : list Converter.QiitaTag;
  private : bool
}.

(** The state of the loop of [syncArticles]. *)
Record Run : Type := {
  history : History;
  syncCount : nat;
  errorCount : nat;
  waits : nat                    (* calls of [sleep(2000)] *)
}.

(** What a run leaves behind. *)
Record Outcome : Type := {
  saved : History;               (* the argument of [saveSyncHistory] *)
  synced : nat;
  errors : nat;
  exitCode : nat
}.

Section World.

(** [new Date(s).valueOf()] in milliseconds; [None] is [NaN]. *)
Variable dateValue : string -> option Z.
(** The library call of the converter. *)
Variable turndown : string -> Completion string.
(** [process.env.ORIGINAL_SITE_URL] *)
Variable originalSiteUrl : option string.
(** [axios.post] and [axios.patch] for the article at a position of the
    batch: the [id] of [response.data], or a throw. *)
Variable post : nat -> Payload -> Completion string.
Variable patch : nat -> string -> Payload -> Completion string.
(** [new Date().toISOString()] while the article at a position is recorded,
    and after the loop. *)
Variable now : nat -> string.
Variable endTime : string.

(** [new Date(a) > new Date(b)] *)
Definition laterThan (a b : string) : bool :=
  match dateValue a, dateValue b with
  | Some x, Some y => (y <? x)%Z
  | _, _ => false
  end.

(** [article.updatedAt || article.revisedAt || article.publishedAt] *)
Definition effectiveTimestamp (article : Article) : option string :=
  or_else (or_else (updatedAt article) (revisedAt article)) (publishedAt article).

(** The decision once [history.articles[article.id]] has been read. An
    inherited member passes the test [!articleHistory] and has no
    [microCMSUpdatedAt], so the comparison is not reached. *)
Definition decideFrom (article : Article) (articleHistory : Found) : Decision :=
  match articleHistory with
  | Undefined => {| shouldSync := true; action := create; decidedQiitaId := None |}
  | Inherited => {| shouldSync := false; action := skip; decidedQiitaId := None |}
  | Entry articleHistory =>
      let lastSyncedUpdatedAt := microCMSUpdatedAt articleHistory in
      let microCMSUpdatedAt := effectiveTimestamp article in
      if truthy microCMSUpdatedAt && truthy lastSyncedUpdatedAt
         && laterThan (default "" microCMSUpdatedAt) (default "" lastSyncedUpdatedAt)
      then {| shouldSync := true; action := update;
              decidedQiitaId := Some (qiitaId articleHistory) |}
      else {| shouldSync := false; action := skip; decidedQiitaId := None |}
  end.

(** [shouldSyncArticle(article, history)], with the history as the call
    leaves it. *)
Definition shouldSyncArticle (article : Article) (history : History)
  : Decision * History :=
  let articleHistory := articleHistoryOf (articles history) (id article) in
  (decideFrom article articleHistory, history).

Definition payloadOf (article : Article) : Completion Payload :=
  let tags := Converter.processTags (category article) (tags article) 5 in
  let originalUrl :=
    match originalSiteUrl with
    | Some url => if negb (isEmpty url) then Some (url +:+ "/articles/" +:+ id article) else None
    | None => None
    end in
  body ← Converter.convert turndown (content article)
            {| Converter.excerpt := excerpt article;
               Converter.originalUrl := originalUrl;
               Converter.originalTitle := Converter.VString (title article) |};
  mret {| payloadTitle := title article; body := body; payloadTags := tags;
          private := false |}.

Definition createQiitaArticle (i : nat) (article : Article) : Completion string :=
  payload ← payloadOf article;
  post i payload.

Definition updateQiitaArticle (i : nat) (article : Article) (qiitaId : string)
  : Completion string :=
  payload ← payloadOf article;
  patch i qiitaId payload.

(** The call the decision asks for. An [update] whose decision carried no
    id would name the item [undefined] in the request. With neither action
    [qiitaArticle] stays [undefined] and reading its [id] throws. *)
Definition publish (i : nat) (article : Article) (syncDecision : Decision)
  : Completion string :=
  match action syncDecision, decidedQiitaId syncDecision with
  | create, _ => createQiitaArticle i article
  | update, Some qiitaId => updateQiitaArticle i article qiitaId
  | update, None => updateQiitaArticle i article "undefined"
  | skip, _ => Throws
  end.

(** The entry written after a publish. *)
Definition entryFor (i : nat) (article : Article) (qiitaArticleId : string)
  : ArticleHistory :=
  {| qiitaId := qiitaArticleId;
     historyTitle := title article;
     lastSyncedAt := now i;
     microCMSUpdatedAt := effectiveTimestamp article |}.

(** One turn of the loop, for the article at position [i]; [total] is
    [articles.length]. The entry is written after a [create], when the id
    is neither stored nor inherited, or an [update], when it is stored: the
    assignment makes or replaces the entry stored under the id. *)
Definition processArticle (total i : nat) (article : Article) (st : Run) : Run :=
  let '(syncDecision, history) := shouldSyncArticle article (history st) in
  if negb (shouldSync syncDecision) then
    {| history := history; syncCount := syncCount st;
       errorCount := errorCount st; waits := waits st |}
  else
    match publish i article syncDecision with
    | Returns qiitaArticleId =>
        let history :=
          {| lastSyncTime := lastSyncTime history;
             articles := <[id article := entryFor i article qiitaArticleId]>
                           (articles history) |} in
        let syncCount := S (syncCount st) in
        {| history := history; syncCount := syncCount;
           errorCount := errorCount st;
           waits := if syncCount <? total then S (waits st) else waits st |}
    | Throws =>
        {| history := history; syncCount := syncCount st;
           errorCount := S (errorCount st); waits := waits st |}
    end.

(** [for (const article of ...)] from position [i] on. *)
Fixpoint loop (total i : nat) (batch : list Article) (st : Run) : Run :=
  match batch with
  | [] => st
  | article :: rest => loop total (S i) rest (processArticle total i article st)
  end.

Definition maxArticles : nat := 50.

(** [syncArticles], from the fetched articles and the loaded history on. *)
Definition syncArticles (fetched : list Article) (loaded : History) : Outcome :=
  let st :=
    loop (length fetched) 0 (take maxArticles fetched)
      {| history := loaded; syncCount := 0; errorCount := 0; waits := 0 |} in
  let history :=
    {| lastSyncTime := Some endTime; articles := articles (history st) |} in
  {| saved := history;
     synced := syncCount st;
     errors := errorCount st;
     exitCode := if 0 <? errorCount st then 1 else 0 |}.

End World.
End Sync.

(** ** The rest of [MicroCMSQiitaSync]: configuration and fetching *)

Module SyncIO.
Import Js Sync.

(** A call that returns nothing or throws an [Error] with a message. *)
Inductive Checked : Type :=
  | Passed
  | Failed (message : string).

(** [process.env]: the variables that are set, with their values. *)
Definition required : list string :=
  ["MICROCMS_DOMAIN"; "MICROCMS_API_KEY"; "QIITA_ACCESS_TOKEN"].

(** [required.filter(key => !process.env[key])] *)
Definition missing (env : gmap string string) : list string :=
  List.filter (fun key => negb (truthy (env !! key))) required.

Definition validateConfig (env : gmap string string) : Checked :=
  let missing := missing env in
  if 0 <? length missing
  then Failed ("Missing required environment variables: " +:+ join ", " missing)
  else Passed.

(** [article.publishedAt && !article.publishedAt.includes('draft')] *)
Definition isPublished (article : Article) : bool :=
  match publishedAt article with
  | Some p => negb (isEmpty p) && negb (includes "draft" p)
  | None => false
  end.

(** [getMicroCMSArticles]; [get] is what [axios.get] gives for
    [response.data.contents], or a throw, which is logged and thrown again. *)
Definition getMicroCMSArticles (get : Completion (list Article))
  : Completion (list Article) :=
  try_catch
    (contents ← get;
     let publishedArticles := List.filter isPublished contents in
     mret publishedArticles)
    Throws.

End SyncIO.

(** ** [TestSync], the run over one article *)

Module TestSync.
Import Js Sync SyncIO.

(** What a test run leaves behind: the history handed to [saveSyncHistory]
    if it was called, the code given to [process.exit] if it was called, and
    the outcome of the publish if there was one. *)
Record TestOutcome : Type := {
  testSaved : option History;
  testExit : option nat;
  testPublish : option (Completion string)
}.

Definition nothingDone (code : option nat) : TestOutcome :=
  {| testSaved := None; testExit := code; testPublish := None |}.

Section World.

Variable dateValue : string -> option Z.
Variable turndown : string -> Completion string.
Variable originalSiteUrl : option string.
Variable post : nat -> Payload -> Completion string.
Variable patch : nat -> string -> Payload -> Completion string.
Variable now : nat -> string.
Variable endTime : string.

(** The article of the test: the one with the id given on the command line,
    or the first one. *)
Definition testArticleOf (targetArticleId : option string) (articles : list Article)
  : option Article :=
  match targetArticleId with
  | Some target =>
      if negb (isEmpty target)
      then List.find (fun article => String.eqb (id article) target) articles
      else head articles
  | None => head articles
  end.

(** [syncArticles] of [TestSync]. [setRawMode] is the call
    [process.stdin.setRawMode(true)], which throws when the standard input is
    not a terminal; it stands in the outer [try], whose handler exits with 1.
    [key] is the key read from the terminal. *)
Definition testSyncArticles (targetArticleId : option string)
    (get : Completion (list Article)) (loaded : History)
    (setRawMode : Completion unit) (key : string)
  : TestOutcome :=
  match getMicroCMSArticles get with
  | Throws => nothingDone (Some 1)
  | Returns [] => nothingDone None
  | Returns fetched =>
      match testArticleOf targetArticleId fetched with
      | None => nothingDone None
      | Some testArticle =>
          let '(syncDecision, history) :=
            shouldSyncArticle dateValue testArticle loaded in
          if negb (shouldSync syncDecision) then nothingDone None
          else
            match setRawMode with
            | Throws => nothingDone (Some 1)
            | Returns _ =>
                if String.eqb key "y" || String.eqb key "Y" then
                  match publish turndown originalSiteUrl post patch 0 testArticle
                          syncDecision with
                  | Returns qiitaArticleId =>
                      let updated :=
                        <[id testArticle := entryFor now 0 testArticle qiitaArticleId]>
                          (articles history) in
                      {| testSaved := Some {| lastSyncTime := Some endTime;
                                              articles := updated |};
                         testExit := Some 0;
                         testPublish := Some (Returns qiitaArticleId) |}
                  | Throws =>
                      {| testSaved := None; testExit := Some 0;
                         testPublish := Some Throws |}
                  end
                else nothingDone (Some 0)
            end
      end
  end.

End World.
End TestSync.

(** * What the properties are stated with *)

(** ** Rules *)

Module RuleTerms.
Import Js Dom Converter.

(** What the specification says of a list item: blank lines stripped at both
    ends, the line breaks left re-indented, the marker and a space in front,
    a line break behind when a sibling follows and none is there yet. *)
Definition listItem_as_specified (content : string) (path : Path) (opts : Options) : string :=
  let stripped := replaceTrailing isLF "" (dropWhile isLF content) in
  let indented := replaceChar isLF (nl +:+ indentUnit) stripped in
  bulletListMarker opts +:+ " " +:+ indented +:+
    (if hasNextSibling path && negb (endsWithLF indented) then nl else "").

(** No THEAD among the siblings of the parent of the row. *)
Definition headerGroupAbsent (path : Path) : bool :=
  match path with
  | Below (Below _ _ before after) _ _ _ =>
      forallb (fun k => negb (String.eqb (nodeName k) "THEAD")) (before ++ after)
  | _ => true
  end.

(** The first row of a header section, in the words of the specification:
    the parent is a header group, or there is no header group and the row is
    the first element of the body. *)
Definition firstRowOfHeaderSection (path : Path) : bool :=
  bool_decide (parentNodeName path = Some "THEAD")
  || (bool_decide (parentNodeName path = Some "TBODY")
      && headerGroupAbsent path && isFirstElementChild path).

(** [s] without its spaces. *)
Fixpoint withoutSpaces (s : string) : string :=
  match s with
  | EmptyString => EmptyString
  | String c r => if Ascii.eqb c SP then withoutSpaces r else String c (withoutSpaces r)
  end.

(** Every [|] of [s] stands right after a backslash; [escaped] says that the
    character before [s] is one. *)
Fixpoint pipesEscaped (escaped : bool) (s : string) : bool :=
  match s with
  | EmptyString => true
  | String c r => (if isPipe c then escaped else true) && pipesEscaped (isBackslash c) r
  end.

(** The text a cell puts between its blank and its closing bar. *)
Definition cleanContent (content : string) : string :=
  trim (replaceChar isPipe "\|" (replaceChar isLF " " content)).

Definition td (text : string) : Node := Element "TD" [] [Text text].

(** A table of two rows and two columns, with no THEAD. *)
Definition table2x2 (a b c d : string) : Node :=
  Element "TABLE" []
    [ Element "TBODY" []
        [ Element "TR" [] [td a; td b];
          Element "TR" [] [td c; td d] ] ].

(** The same table with its first row in a THEAD. *)
Definition th (text : string) : Node := Element "TH" [] [Text text].

Definition table2x2_thead (a b c d : string) : Node :=
  Element "TABLE" []
    [ Element "THEAD" [] [ Element "TR" [] [th a; th b] ];
      Element "TBODY" [] [ Element "TR" [] [td c; td d] ] ].

End RuleTerms.

(** ** [convert] *)

Module ConvertTerms.
Import Js Dom Converter.

(** No more than two line breaks in a row in [s], when [k] of them stand
    right before [s]. *)
Fixpoint noRun (k : nat) (s : string) : bool :=
  match s with
  | EmptyString => true
  | String c r => if isLF c then (k <? 2) && noRun (S k) r else noRun 0 r
  end.

Definition threeLFs : string := nl +:+ nl +:+ nl.

(** [html] passes the guard [!html || typeof html !== 'string']. *)
Definition isNonEmptyString (html : Value) : bool :=
  match html with
  | VString (String _ _) => true
  | _ => false
  end.

(** [options.excerpt && options.excerpt.trim()] is falsy, and nothing threw. *)
Definition blankExcerpt (v : Value) : bool :=
  match v with
  | VString e => isEmpty (trim e)
  | VOther isTruthy => negb isTruthy
  | VUndefined | VNull => true
  end.

(** An engine for the examples: a lone line break element renders as the
    empty string, the input [<boom>] makes the engine throw, and any other
    input is rendered as it stands. *)
Definition sampleEngine (html : string) : Completion string :=
  if String.eqb html "<br>" then Returns ""
  else if String.eqb html "<boom>" then Throws
  else Returns html.

Definition withExcerptOption (e : Value) : ConvertOptions :=
  {| excerpt := e; originalUrl := None; originalTitle := VUndefined |}.

End ConvertTerms.

(** ** [processTags] *)

Module TagTerms.
Import Js Converter.

(** The candidates: what the categories push, then the trimmed, non-empty
    segments of the comma-separated tags. *)
Definition candidates (categories : Categories) (rawTags : string) : list string :=
  match categories with
  | CArray l => flat_map pushed l
  | CSingle c => pushed c
  end
  ++ List.filter (fun tag => negb (isEmpty tag)) (map trim (split ","%char rawTags)).

(** The members of [l] that are not in [seen] and occur for the first time. *)
Fixpoint firstOccurrences (seen l : list string) : list string :=
  match l with
  | [] => []
  | x :: r =>
      if bool_decide (x ∈ seen) then firstOccurrences seen r
      else x :: firstOccurrences (seen ++ [x]) r
  end.

(** The normalizer as a pipeline over the candidates: duplicates removed,
    the candidates whose form under [norm] is empty or longer than
    [maxTagLength] discarded, the first [maxTags] kept, the default tag when
    none is left, and each one given under [norm]. *)
Definition normalize (norm : string -> string) (cands : list string)
    (maxTags maxTagLength : nat) : list QiitaTag :=
  let survivors :=
    take maxTags
      (List.filter
         (fun tag => negb (isEmpty (norm tag))
                     && (String.length (norm tag) <=? maxTagLength))
         (firstOccurrences [] cands)) in
  map (fun tag => {| name := norm tag |})
      match survivors with [] => ["AI"] | _ => survivors end.

(** The normalizer in the words of the specification: each candidate is
    measured and given as it stands. *)
Definition normalize_as_specified (categories : Categories) (rawTags : string)
    (maxTags maxTagLength : nat) : list QiitaTag :=
  normalize (fun tag => tag) (candidates categories rawTags) maxTags maxTagLength.

End TagTerms.

(** ** The sync decision and the batch *)

Module SyncTerms.
Import Js Sync.

(** The first value that is present, in the words of the glossary. *)
Definition firstPresent (l : list (option string)) : option string :=
  match List.find truthy l with
  | Some (Some s) => Some s
  | _ => None
  end.

(** For the examples: the time value of a date written [YYYY-MM-DD], in
    milliseconds since 1970-01-01, and no date for any other string. *)
Definition digit (c : ascii) : option Z :=
  let n := nat_of_ascii c in
  if (48 <=? n) && (n <=? 57) then Some (Z.of_nat (n - 48)) else None.

Definition number (s : string) : option Z :=
  (fix go (acc : Z) (s : string) : option Z :=
     match s with
     | EmptyString => Some acc
     | String c r => match digit c with
                     | Some d => go (10 * acc + d)%Z r
                     | None => None
                     end
     end) 0%Z s.

Definition daysFromCivil (y m d : Z) : Z :=
  let y := if (m <=? 2)%Z then (y - 1)%Z else y in
  let era := (y / 400)%Z in
  let yoe := (y - era * 400)%Z in
  let doy := ((153 * (if (2 <? m)%Z then m - 3 else m + 9) + 2) / 5 + d - 1)%Z in
  let doe := (yoe * 365 + yoe / 4 - yoe / 100 + doy)%Z in
  (era * 146097 + doe - 719468)%Z.

Definition isoDateValue (s : string) : option Z :=
  if (String.length s =? 10)
     && String.eqb (String.substring 4 1 s) "-" && String.eqb (String.substring 7 1 s) "-"
  then
    match number (String.substring 0 4 s), number (String.substring 5 2 s),
          number (String.substring 8 2 s) with
    | Some y, Some m, Some d =>
        if ((1 <=? m) && (m <=? 12) && (1 <=? d) && (d <=? 31))%Z
        then Some (daysFromCivil y m d * 86400000)%Z
        else None
    | _, _, _ => None
    end
  else None.

Definition sampleArticle (id updatedAt : string) : Article :=
  {| id := id; title := "T"; content := Converter.VString "<p>x</p>";
     excerpt := Converter.VUndefined; category := Converter.CArray [];
     tags := Converter.VUndefined;
     publishedAt := Some "2024-01-01"; updatedAt := Some updatedAt;
     revisedAt := None |}.

Definition sampleRecord : ArticleHistory :=
  {| qiitaId := "q1"; historyTitle := "T"; lastSyncedAt := "2024-01-02";
     microCMSUpdatedAt := Some "2024-01-01" |}.

(** Two new articles, the publish of the second one failing. *)
Definition samplePost (i : nat) (payload : Payload) : Completion string :=
  if i =? 0 then Returns "q-new" else Throws.

Definition samplePatch (i : nat) (qiitaId : string) (payload : Payload)
  : Completion string := Returns qiitaId.

Definition sampleNow (i : nat) : string := "2024-03-01".

Section Decision.

Variable dateValue : string -> option Z.

(** The item is strictly later than the record: both timestamps are
    present and the date of the first is after the date of the second. *)
Definition strictlyLater (article : Article) (record : ArticleHistory) : Prop :=
  exists a b x y,
    firstPresent [updatedAt article; revisedAt article; publishedAt article] = Some a
    /\ microCMSUpdatedAt record = Some b /\ b <> ""
    /\ dateValue a = Some x /\ dateValue b = Some y /\ (y < x)%Z.

End Decision.

Section Batch.

Variable dateValue : string -> option Z.
Variable turndown : string -> Completion string.
Variable originalSiteUrl : option string.
Variable post : nat -> Payload -> Completion string.
Variable patch : nat -> string -> Payload -> Completion string.
Variable now : nat -> string.

(** The publish the article at position [i] gets when the entries are
    [before]: [None] when it is skipped. *)
Definition attempt (i : nat) (article : Article) (before : gmap string ArticleHistory)
  : option (Completion string) :=
  let syncDecision :=
    decideFrom dateValue article (articleHistoryOf before (id article)) in
  if shouldSync syncDecision
  then Some (publish turndown originalSiteUrl post patch i article syncDecision)
  else None.

Definition failed (before : gmap string ArticleHistory) (i : nat) (article : Article) : bool :=
  match attempt i article before with
  | Some Throws => true
  | _ => false
  end.

Definition succeeded (before : gmap string ArticleHistory) (i : nat) (article : Article) : bool :=
  match attempt i article before with
  | Some (Returns _) => true
  | _ => false
  end.

(** How many articles of the batch, which starts at position [i], satisfy [f]. *)
Fixpoint tally (f : nat -> Article -> bool) (i : nat) (batch : list Article) : nat :=
  match batch with
  | [] => 0
  | article :: rest => (if f i article then 1 else 0) + tally f (S i) rest
  end.

(** The entry for the id of the article after its turn. *)
Definition entryAfter (i : nat) (article : Article) (before : gmap string ArticleHistory)
  : option ArticleHistory :=
  match attempt i article before with
  | Some (Returns qiitaArticleId) => Some (entryFor now i article qiitaArticleId)
  | Some Throws | None => before !! id article
  end.

End Batch.

End SyncTerms.

(** ** Further terms *)

Module MoreTerms.
Import Js Sync.

(** The decision that skips an article. *)
Definition skipDecision : Decision :=
  {| shouldSync := false; action := skip; decidedQiitaId := None |}.

(** A publisher that accepts every article. *)
Definition samplePostOk (i : nat) (payload : Payload) : Completion string :=
  Returns "q-new".

(** The test run comes to ask for the key: the articles were fetched, the
    test article was found among them and is to be synced. *)
Definition prompted (dateValue : string -> option Z) (targetArticleId : option string)
    (get : Completion (list Article)) (loaded : History) : bool :=
  match SyncIO.getMicroCMSArticles get with
  | Returns fetched =>
      match TestSync.testArticleOf targetArticleId fetched with
      | Some testArticle => shouldSync (fst (shouldSyncArticle dateValue testArticle loaded))
      | None => false
      end
  | Throws => false
  end.

(** What the categories put on [allTags], and what the tags field adds. *)
Definition fromCategories (categories : Converter.Categories) : list string :=
  match categories with
  | Converter.CArray l => flat_map Converter.pushed l
  | Converter.CSingle c => Converter.pushed c
  end.

Definition fromTags (tags : Converter.Value) : list string :=
  match tags with
  | Converter.VString (String _ _ as tags) =>
      List.filter (fun tag => 0 <? String.length tag) (map trim (split ","%char tags))
  | _ => []
  end.

(** [s] without the characters of the class [p]. *)
Fixpoint without (p : ascii -> bool) (s : string) : string :=
  match s with
  | EmptyString => EmptyString
  | String c r => if p c then without p r else String c (without p r)
  end.

(** [s] from its character number [k] on. *)
Fixpoint dropChars (k : nat) (s : string) : string :=
  match k, s with
  | S k', String _ r => dropChars k' r
  | _, _ => s
  end.

End MoreTerms.

(** * Properties *)

(** ** The definitions on examples *)

Module Examples.
Import Js Dom Converter SyncTerms.

Example isSpace_ex :
  map isSpace [" "%char; "009"%char; LF; "160"%char; "a"%char; "*"%char]
  = [true; true; true; true; false; false].
Proof. reflexivity. Qed.
Example replaceTrailing_ex :
  replaceTrailing isLF nl ("a" +:+ nl +:+ "b" +:+ nl +:+ nl) = "a" +:+ nl +:+ "b" +:+ nl.
Proof. reflexivity. Qed.
Example tidy_ex :
  tidy (nl +:+ "a" +:+ nl +:+ nl +:+ nl +:+ "b" +:+ nl +:+ nl) = "a" +:+ nl +:+ nl +:+ "b".
Proof. reflexivity. Qed.
Example matchLanguage_ex : matchLanguage "hljs language-js x" = Some "js".
Proof. reflexivity. Qed.
Example matchLanguage_later : matchLanguage "language- language-c" = Some "c".
Proof. reflexivity. Qed.
Example codeBlock_ex :
  transduce (fun text => text)
    (Element "PRE" [] [Element "CODE" [("class", "language-js")] [Text "a*b"]])
  = nl +:+ nl +:+ fence +:+ "js" +:+ nl +:+ "a*b" +:+ nl +:+ fence +:+ nl +:+ nl.
Proof. reflexivity. Qed.
Example image_ex :
  transduce (fun text => text)
    (Element "IMG" [("alt", "x"); ("src", "u.png"); ("title", "t")] [])
  = "![x](u.png " +:+ quote +:+ "t" +:+ quote +:+ ")".
Proof. reflexivity. Qed.
Example image_no_src :
  transduce (fun text => text) (Element "IMG" [("alt", "x")] []) = "".
Proof. reflexivity. Qed.
Example list_ex :
  transduce (fun text => text)
    (Element "UL" [] [Element "LI" [] [Text "a"]; Element "LI" [] [Text "b"]])
  = "- a" +:+ nl +:+ "- b".
Proof. reflexivity. Qed.
Example strong_ex :
  transduce (fun text => text) (Element "STRONG" [] [Text " text "]) = "**text**".
Proof. reflexivity. Qed.
Example bold_ex :
  transduce (fun text => text) (Element "B" [] [Text " text "]) = "**text**".
Proof. reflexivity. Qed.
Example emphasis_ex :
  transduce (fun text => text) (Element "EM" [] [Text " text "]) = "*text*".
Proof. reflexivity. Qed.

Example trim_ex : Js.trim "  a b  " = "a b".
Proof. reflexivity. Qed.
Example split_ex : Js.split ","%char "c, d" = ["c"; " d"].
Proof. reflexivity. Qed.
Example split_empty_ex : Js.split ","%char "" = [""].
Proof. reflexivity. Qed.
Example collapse_ex :
  Js.collapseLFs 0 ("a" +:+ Js.nl +:+ Js.nl +:+ Js.nl +:+ Js.nl +:+ "b")
  = "a" +:+ Js.nl +:+ Js.nl +:+ "b".
Proof. reflexivity. Qed.

Example boldParts_ex : boldParts 0 "x **a** y ** b ** z" = ["**a**"; "** b **"].
Proof. reflexivity. Qed.
Example fixBold_ex1 : fixBoldSpacing "** text **" = "**text**".
Proof. reflexivity. Qed.
Example fixBold_ex2 : fixBoldSpacing "**   **" = "** **".
Proof. reflexivity. Qed.
Example fixBold_ex3 : fixBoldSpacing "** a**" = "** a**".
Proof. reflexivity. Qed.
Example fixBold_ex4 : fixBoldSpacing "***  a b  **" = "***a b**".
Proof. reflexivity. Qed.
(** Once a padded span sets it off, the replacement takes the closing
    delimiter of one span and the opening one of the next for a pair. *)
Example fixBold_between_spans :
  fixBoldSpacing "x **a** y ** b ** z" = "x **a**y** b ** z".
Proof. reflexivity. Qed.
Example processTags_ex1 :
  processTags (CArray [CString "A"; CString "A"; CString "B"]) (VString "c, d") 5
  = [ {| name := "A" |}; {| name := "B" |}; {| name := "c" |}; {| name := "d" |} ].
Proof. reflexivity. Qed.
Example processTags_ex2 :
  processTags (CArray []) (VString "") 5 = [ {| name := "AI" |} ].
Proof. reflexivity. Qed.

Example isoDateValue_epoch : isoDateValue "1970-01-01" = Some 0%Z.
Proof. reflexivity. Qed.
Example isoDateValue_2024 : isoDateValue "2024-03-01" = Some 1709251200000%Z.
Proof. reflexivity. Qed.
Example isoDateValue_invalid : isoDateValue "yesterday" = None.
Proof. reflexivity. Qed.

End Examples.

(** ** Strings *)

Module JsFacts.
Import Js.

Lemma app_nil_l (s : string) : "" +:+ s = s.
Proof. reflexivity. Qed.

Lemma app_cons (c : ascii) (a b : string) : String c a +:+ b = String c (a +:+ b).
Proof. reflexivity. Qed.

Lemma app_nil_r (s : string) : s +:+ "" = s.
Proof. induction s as [|c s IH]; [reflexivity|]. rewrite app_cons, IH. reflexivity. Qed.

Lemma app_assoc (a b c : string) : (a +:+ b) +:+ c = a +:+ (b +:+ c).
Proof.
  induction a as [|x a IH]; [reflexivity|].
  rewrite !app_cons, IH. reflexivity.
Qed.

Lemma isEmpty_true (s : string) : isEmpty s = true <-> s = "".
Proof. destruct s; simpl; split; congruence. Qed.

Lemma length_app (a b : string) :
  String.length (a +:+ b) = String.length a + String.length b.
Proof.
  induction a as [|x a IH]; [reflexivity|].
  rewrite app_cons. simpl. rewrite IH. reflexivity.
Qed.

(** *** Line breaks at the ends *)

Lemma endsWithLF_cons (c d : ascii) (r : string) :
  endsWithLF (String c (String d r)) = endsWithLF (String d r).
Proof. reflexivity. Qed.

Lemma endsWithLF_app (a b : string) :
  endsWithLF (a +:+ b) = if isEmpty b then endsWithLF a else endsWithLF b.
Proof.
  induction a as [|x a IH].
  - rewrite app_nil_l. destruct b; reflexivity.
  - rewrite app_cons. destruct b as [|y b].
    + rewrite app_nil_r. reflexivity.
    + destruct a as [|z a].
      * rewrite app_nil_l. reflexivity.
      * rewrite app_cons in *. rewrite endsWithLF_cons. exact IH.
Qed.

Lemma lastIs_LF (s : string) : lastIs isLF s = endsWithLF s.
Proof.
  induction s as [|c s IH]; [reflexivity|].
  destruct s; [reflexivity|]. exact IH.
Qed.

Lemma firstIs_dropWhile (p : ascii -> bool) (s : string) :
  firstIs p (dropWhile p s) = false.
Proof.
  induction s as [|c s IH]; [reflexivity|].
  simpl. destruct (p c) eqn:E; [exact IH|]. simpl. exact E.
Qed.

Lemma dropWhile_id (p : ascii -> bool) (s : string) :
  firstIs p s = false -> dropWhile p s = s.
Proof. destruct s as [|c s]; [reflexivity|]. simpl. intros ->. reflexivity. Qed.

Lemma all_lastIs (p : ascii -> bool) (c : ascii) (s : string) :
  all p (String c s) = true -> lastIs p (String c s) = true.
Proof.
  revert c. induction s as [|d s IH]; intros c; simpl.
  - rewrite andb_true_r. trivial.
  - intros H. apply andb_prop in H as [_ H]. apply (IH d). exact H.
Qed.

Lemma replaceTrailing_empty (p : ascii -> bool) (s : string) :
  replaceTrailing p "" s = "" -> all p s = true.
Proof.
  destruct s as [|c s]; [reflexivity|].
  simpl. destruct (p c && all p s); [reflexivity|discriminate].
Qed.

Lemma lastIs_replaceTrailing (p : ascii -> bool) (s : string) :
  lastIs p (replaceTrailing p "" s) = false.
Proof.
  induction s as [|c s IH]; [reflexivity|].
  simpl. destruct (p c && all p s) eqn:E; [reflexivity|].
  destruct (replaceTrailing p "" s) as [|d r] eqn:R.
  - apply replaceTrailing_empty in R. rewrite R, andb_true_r in E.
    simpl. exact E.
  - exact IH.
Qed.

Lemma firstIs_replaceTrailing (p : ascii -> bool) (by_ s : string) :
  firstIs p s = false -> firstIs p (replaceTrailing p by_ s) = false.
Proof.
  destruct s as [|c s]; [reflexivity|]. simpl. intros E. rewrite E. simpl. exact E.
Qed.

Lemma replaceTrailing_id (p : ascii -> bool) (by_ s : string) :
  lastIs p s = false -> replaceTrailing p by_ s = s.
Proof.
  induction s as [|c s IH]; [reflexivity|].
  intros L. simpl.
  destruct (p c && all p s) eqn:E.
  - apply all_lastIs in E. congruence.
  - f_equal. apply IH. destruct s; [reflexivity|exact L].
Qed.

Lemma trim_empty_of_empty (e : string) : isEmpty e = true -> isEmpty (trim e) = true.
Proof. intros H. apply isEmpty_true in H. subst e. reflexivity. Qed.

Lemma trim_no_leading_blank (s : string) : firstIs isSpace (trim s) = false.
Proof. apply firstIs_replaceTrailing, firstIs_dropWhile. Qed.

Lemma trim_no_trailing_blank (s : string) : lastIs isSpace (trim s) = false.
Proof. apply lastIs_replaceTrailing. Qed.

End JsFacts.

(** ** The rules of [setupCustomRules] *)

Module RuleFacts.
Import Js Dom Converter RuleTerms JsFacts.

Lemma firstIs_spanNoStar (p : ascii -> bool) (s : string) :
  firstIs p (fst (spanNoStar s)) = true -> firstIs p s = true.
Proof.
  destruct s as [|c s]; [discriminate|].
  simpl. destruct (isStar c); [discriminate|].
  destruct (spanNoStar s) as [y t]. simpl. trivial.
Qed.

Lemma paddedAt_false (s : string) :
  (forall r, stripPrefix "**" s = Some r -> firstIs isSpace r = false) ->
  paddedAt s = false.
Proof.
  intros H. unfold paddedAt, boldAt.
  destruct (stripPrefix "**" s) as [r|] eqn:E; [|reflexivity].
  specialize (H r eq_refl).
  destruct (spanNoStar r) as [y t] eqn:Y.
  destruct (stripPrefix "**" t); [|reflexivity].
  destruct (firstIs isSpace y) eqn:F.
  - pose proof (firstIs_spanNoStar isSpace r) as G. rewrite Y in G.
    specialize (G F). congruence.
  - rewrite andb_false_r. reflexivity.
Qed.

Lemma paddedAt_strong (t : string) :
  firstIs isSpace t = false -> paddedAt ("**" +:+ t +:+ "**") = false.
Proof.
  intros F. apply paddedAt_false. intros r E.
  change (Some (t +:+ "**") = Some r) in E. injection E as <-.
  destruct t; [reflexivity|exact F].
Qed.

Lemma endsWithLF_indent (s : string) :
  endsWithLF (replaceChar isLF (nl +:+ indentUnit) s) = false.
Proof.
  induction s as [|c s IH]; [reflexivity|].
  simpl. destruct (isLF c) eqn:E.
  - rewrite endsWithLF_app.
    destruct (isEmpty _); [reflexivity|exact IH].
  - destruct (replaceChar isLF (nl +:+ indentUnit) s) eqn:R; [|exact IH].
    simpl. exact E.
Qed.

Lemma endsWithLF_dropWhile (s : string) :
  endsWithLF s = false -> endsWithLF (dropWhile isLF s) = false.
Proof.
  induction s as [|c s IH]; [reflexivity|].
  intros H. simpl. destruct (isLF c) eqn:E; [|exact H].
  apply IH. destruct s; [simpl in H; congruence|exact H].
Qed.

(** C6, as the specification words it, fails: a content that ends in a line
    break keeps one, and that one is indented like the others. An item whose
    content is [a] and a line break, with no sibling after it, renders as the
    marker, [a], a line break and four spaces. *)
Lemma listItem_trailing_break_kept :
  replacement listItemRule ("a" +:+ nl) Root (Element "LI" [] [Text "a"]) options
    = "- a" +:+ nl +:+ "    "
  /\ listItem_as_specified ("a" +:+ nl) Root options = "- a"
  /\ replacement listItemRule ("a" +:+ nl) Root (Element "LI" [] [Text "a"]) options
     <> listItem_as_specified ("a" +:+ nl) Root options.
Proof. repeat split. discriminate. Qed.

(** C6, amended: the list item rule strips the line breaks in front of the
    content, reduces those at its end to a single one, puts the indent unit
    after every line break (that last one too), and puts the bullet marker
    and a space in front; a line break follows exactly when the item has a
    next sibling, since the indented content never ends in a line break.
    On a content that does not end in a line break this is the rendering
    the specification describes. The rule is the one an LI element selects. *)
Theorem listItem_rendering (content : string) (path : Path) (node : Node) :
  let inner :=
    replaceChar isLF (nl +:+ indentUnit)
      (replaceTrailing isLF nl (dropWhile isLF content)) in
  replacement listItemRule content path node options
    = "- " +:+ inner +:+ (if hasNextSibling path then nl else "")
  /\ firstIs isLF (dropWhile isLF content) = false
  /\ endsWithLF inner = false
  /\ (endsWithLF content = false ->
      replacement listItemRule content path node options
      = listItem_as_specified content path options)
  /\ (forall attrs kids, forNode (Element "LI" attrs kids) = Some listItemRule).
Proof.
  intros inner. assert (endsWithLF inner = false) as E by apply endsWithLF_indent.
  repeat split.
  - cbn [replacement listItemRule]. fold inner. rewrite E, andb_true_r. reflexivity.
  - apply firstIs_dropWhile.
  - exact E.
  - intros H. unfold listItem_as_specified. cbn [replacement listItemRule].
    apply endsWithLF_dropWhile in H. rewrite <- lastIs_LF in H.
    rewrite !(replaceTrailing_id isLF _ _ H). reflexivity.
Qed.

Lemma listItem_rendering_witness :
  replacement listItemRule ("a" +:+ nl +:+ "b") Root (Element "LI" [] []) options
  = listItem_as_specified ("a" +:+ nl +:+ "b") Root options.
Proof.
  exact (proj1 (proj2 (proj2 (proj2
    (listItem_rendering ("a" +:+ nl +:+ "b") Root (Element "LI" [] []))))) eq_refl).
Defined.

(** *** Table rows and cells *)

Lemma headerGroupAbsent_previous (path : Path) :
  headerGroupAbsent path = true ->
  parentPreviousElementSiblingName path <> Some "THEAD".
Proof.
  destruct path as [|up name before after]; [discriminate|].
  destruct up as [|up' tname tbefore tafter]; [discriminate|].
  cbn [headerGroupAbsent parentPreviousElementSiblingName previousElementSiblingName].
  intros H E.
  destruct (last (base.filter (fun k => isElement k = true) tbefore)) as [k|] eqn:L;
    [|discriminate].
  apply last_Some in L as [l' L].
  assert (k ∈ base.filter (fun k => isElement k = true) tbefore) as I
    by (rewrite L; apply elem_of_app; right; left).
  apply list_elem_of_filter in I as [_ I].
  rewrite forallb_forall in H.
  assert (In k (tbefore ++ tafter)) as J
    by (apply in_or_app; left; apply list_elem_of_In; exact I).
  specialize (H k J). cbn in E. injection E as E. rewrite E in H. discriminate.
Qed.

Lemma firstRow_isHeaderRow (path : Path) :
  firstRowOfHeaderSection path = true -> isHeaderRow path = true.
Proof.
  unfold firstRowOfHeaderSection, isHeaderRow. intros H.
  apply orb_prop in H as [H|H]; [rewrite H; reflexivity|].
  apply andb_prop in H as [H F]. apply andb_prop in H as [B A].
  rewrite B, F. apply headerGroupAbsent_previous in A.
  rewrite (bool_decide_eq_true_2 _ A). apply orb_true_r.
Qed.

Lemma separatorLine_segments (n : nat) :
  separatorLine (S n) = "|" +:+ concat (replicate (S n) " ---  |").
Proof.
  unfold separatorLine. f_equal.
  induction n as [|n IH]; [reflexivity|].
  change (replicate (S (S n)) " --- ") with (" --- " :: replicate (S n) " --- ").
  change (join " |" (" --- " :: replicate (S n) " --- "))
    with (" --- " +:+ " |" +:+ join " |" (replicate (S n) " --- ")).
  rewrite !app_assoc, IH. reflexivity.
Qed.

Lemma withoutSpaces_app (a b : string) :
  withoutSpaces (a +:+ b) = withoutSpaces a +:+ withoutSpaces b.
Proof.
  induction a as [|c a IH]; [reflexivity|].
  rewrite app_cons. simpl. destruct (Ascii.eqb c SP); [exact IH|].
  rewrite app_cons, IH. reflexivity.
Qed.

Lemma separatorLine_shape (n : nat) :
  withoutSpaces (separatorLine n) = "|" +:+ join "|" (replicate n "---") +:+ "|".
Proof.
  unfold separatorLine. rewrite !withoutSpaces_app.
  change (withoutSpaces "|") with "|". change (withoutSpaces " |") with "|".
  do 2 f_equal.
  destruct n as [|n]; [reflexivity|].
  induction n as [|n IH]; [reflexivity|].
  change (replicate (S (S n)) " --- ") with (" --- " :: replicate (S n) " --- ").
  change (replicate (S (S n)) "---") with ("---" :: replicate (S n) "---").
  change (join " |" (" --- " :: replicate (S n) " --- "))
    with (" --- " +:+ " |" +:+ join " |" (replicate (S n) " --- ")).
  change (join "|" ("---" :: replicate (S n) "---"))
    with ("---" +:+ "|" +:+ join "|" (replicate (S n) "---")).
  rewrite !withoutSpaces_app, IH. reflexivity.
Qed.

Lemma pipesEscaped_escape (s : string) (escaped : bool) :
  pipesEscaped escaped (replaceChar isPipe "\|" s) = true.
Proof.
  revert escaped. induction s as [|c s IH]; intros escaped; [reflexivity|].
  cbn [replaceChar]. destruct (isPipe c) eqn:E.
  - change ("\|" +:+ ?x) with (String "\"%char (String "|"%char x)).
    cbn [pipesEscaped]. rewrite IH. reflexivity.
  - cbn [pipesEscaped]. rewrite IH, E. reflexivity.
Qed.

Lemma isSpace_not_backslash (c : ascii) : isSpace c = true -> isBackslash c = false.
Proof.
  unfold isBackslash. destruct (Ascii.eqb c "\"%char) eqn:E; [|reflexivity].
  apply Ascii.eqb_eq in E. subst c. discriminate.
Qed.

Lemma pipesEscaped_trim (s : string) :
  pipesEscaped false s = true -> pipesEscaped false (trim s) = true.
Proof.
  unfold trim. intros H.
  assert (pipesEscaped false (dropWhile isSpace s) = true) as D.
  { induction s as [|c s IH]; [reflexivity|].
    simpl. destruct (isSpace c) eqn:E; [|exact H].
    apply IH. cbn [pipesEscaped] in H. apply andb_prop in H as [_ H].
    rewrite (isSpace_not_backslash _ E) in H. exact H. }
  clear H. revert D. generalize (dropWhile isSpace s) false.
  intros t. induction t as [|c t IH]; intros e; [reflexivity|].
  simpl. destruct (isSpace c && all isSpace t); [reflexivity|].
  intros H. apply andb_prop in H as [H1 H2].
  cbn [pipesEscaped]. rewrite H1, (IH _ H2). reflexivity.
Qed.

Lemma all_app (p : ascii -> bool) (a b : string) :
  all p (a +:+ b) = all p a && all p b.
Proof.
  induction a as [|c a IH]; [reflexivity|].
  rewrite app_cons. cbn [all]. rewrite IH. apply andb_assoc.
Qed.

Lemma all_replaceChar (p q : ascii -> bool) (by_ s : string) :
  all p s = true -> all p by_ = true -> all p (replaceChar q by_ s) = true.
Proof.
  intros H B. induction s as [|c s IH]; [reflexivity|].
  cbn [all] in H. apply andb_prop in H as [C H].
  cbn [replaceChar]. destruct (q c).
  - rewrite all_app, B, (IH H). reflexivity.
  - cbn [all]. rewrite C, (IH H). reflexivity.
Qed.

Lemma all_trim (p : ascii -> bool) (s : string) :
  all p s = true -> all p (trim s) = true.
Proof.
  unfold trim. intros H.
  assert (all p (dropWhile isSpace s) = true) as D.
  { induction s as [|c s IH]; [reflexivity|].
    cbn [dropWhile]. destruct (isSpace c); [|exact H].
    apply IH. cbn [all] in H. apply andb_prop in H as [_ H]. exact H. }
  clear H. revert D. generalize (dropWhile isSpace s).
  intros t. induction t as [|c t IH]; [reflexivity|].
  cbn [replaceTrailing all]. destruct (isSpace c && all isSpace t); [reflexivity|].
  intros H. apply andb_prop in H as [C H]. cbn [all]. rewrite C, (IH H). reflexivity.
Qed.

Lemma all_replaceChar_LF (s : string) :
  all (fun c => negb (isLF c)) (replaceChar isLF " " s) = true.
Proof.
  induction s as [|c s IH]; [reflexivity|].
  simpl. destruct (isLF c) eqn:E.
  - exact IH.
  - simpl. rewrite E, IH. reflexivity.
Qed.

Lemma replacementForNode_element
    (escape : string -> string) (path : Path) (name : string)
    (attrs : list (string * string)) (kids : list Node) :
  replacementForNode escape path (Element name attrs kids)
  = let content := process escape path name [] kids in
    match forNode (Element name attrs kids) with
    | Some rule => replacement rule content path (Element name attrs kids) options
    | None =>
        match libraryRule (Element name attrs kids) with
        | Some rule => replacement rule content path (Element name attrs kids) options
        | None => content
        end
    end.
Proof.
  cbn [replacementForNode]. cbv zeta.
  enough (forall before,
    (fix process (before after : list Node) {struct after} : string :=
       match after with
       | [] => ""
       | k :: rest =>
           replacementForNode escape (Below path name before rest) k
           +:+ process (before ++ [k]) rest
       end) before kids = process escape path name before kids) as H
    by (rewrite H; reflexivity).
  induction kids as [|k kids IH]; intros before; [reflexivity|].
  cbn [process]. rewrite <- IH. reflexivity.
Qed.

(** The filters of the added rules exclude one another, so the rule selected
    for a node does not depend on the order in which the rules are tried. *)
Lemma forNode_any_order (n : Node) :
  snd <$> List.find (fun r => filter (snd r) n) (rev customRules) = forNode n.
Proof.
  destruct n as [d|name attrs kids]; [reflexivity|].
  unfold forNode, customRules.
  cbn [rev List.app List.find snd filter strongRule codeBlockRule imageRule
       listItemRule tableRule tableRowRule tableCellRule tag isElement nodeName andb].
  destruct (String.eqb_spec (toLowerCase name) "strong") as [E1|_];
  destruct (String.eqb_spec (toLowerCase name) "img") as [E2|_];
  destruct (String.eqb_spec (toLowerCase name) "li") as [E3|_];
  destruct (String.eqb_spec (toLowerCase name) "table") as [E4|_];
  destruct (String.eqb_spec (toLowerCase name) "tr") as [E5|_];
  destruct (String.eqb_spec (toLowerCase name) "th") as [E6|_];
  destruct (String.eqb_spec (toLowerCase name) "td") as [E7|_];
  destruct (String.eqb_spec name "PRE") as [E8|_];
  try congruence; try (subst name; discriminate); cbn [orb andb fmap option_fmap option_map];
  try reflexivity; destruct (firstChild _) as [c|]; try reflexivity;
  destruct (String.eqb (nodeName c) "CODE"); reflexivity.
Qed.

(** C5: a row that is the first row of a header section (its parent is a
    THEAD, or the table has no THEAD and the row is the first element of its
    TBODY) is rendered as a bar, its cells and a line break, followed at once
    by the separator line and a line break. The separator line is a bar and
    then one segment per cell, each segment three dashes and a bar with blanks
    around the dashes; without the blanks it reads [|---|---|...], one
    [---] per cell between two bars. A cell is
    a blank, its content and a blank and a bar, the content without line
    breaks, with every bar behind a backslash, and trimmed. A table of two
    rows and two columns gives the first row, the separator right after it,
    and the second row, whether its first row stands in a THEAD or both rows
    in the TBODY. *)
Theorem tableRow_header_separator
    (escape : string -> string) (content : string) (path : Path) (node : Node) :
  (firstRowOfHeaderSection path = true ->
   replacement tableRowRule content path node options
     = "|" +:+ content +:+ nl +:+ separatorLine (length (children node)) +:+ nl)
  /\ (forall n, separatorLine (S n) = "|" +:+ concat (replicate (S n) " ---  |")
              /\ withoutSpaces (separatorLine n)
                 = "|" +:+ join "|" (replicate n "---") +:+ "|")
  /\ (replacement tableCellRule content path node options
        = " " +:+ cleanContent content +:+ " |"
      /\ firstIs isSpace (cleanContent content) = false
      /\ lastIs isSpace (cleanContent content) = false
      /\ all (fun c => negb (isLF c)) (cleanContent content) = true
      /\ pipesEscaped false (cleanContent content) = true)
  /\ (forall a b c d,
        transduce escape (table2x2 a b c d)
        = nl +:+ nl
          +:+ "|" +:+ (" " +:+ cleanContent (escape a) +:+ " |")
                  +:+ (" " +:+ cleanContent (escape b) +:+ " |") +:+ nl
          +:+ "| ---  | ---  |" +:+ nl
          +:+ "|" +:+ (" " +:+ cleanContent (escape c) +:+ " |")
                  +:+ (" " +:+ cleanContent (escape d) +:+ " |") +:+ nl
          +:+ nl +:+ nl
        /\ transduce escape (table2x2_thead a b c d)
           = transduce escape (table2x2 a b c d))
  /\ (forall attrs kids,
        forNode (Element "TR" attrs kids) = Some tableRowRule
        /\ forNode (Element "TH" attrs kids) = Some tableCellRule
        /\ forNode (Element "TD" attrs kids) = Some tableCellRule).
Proof.
  split; [|split; [|split; [|split]]].
  - intros H. apply firstRow_isHeaderRow in H.
    cbn [replacement tableRowRule]. rewrite H, !app_assoc. reflexivity.
  - intros n. split; [apply separatorLine_segments|apply separatorLine_shape].
  - split; [reflexivity|]. unfold cleanContent.
    split; [apply trim_no_leading_blank|].
    split; [apply trim_no_trailing_blank|].
    split; [apply all_trim, all_replaceChar; [apply all_replaceChar_LF|reflexivity]|].
    apply pipesEscaped_trim, pipesEscaped_escape.
  - intros a b c d. split; [|unfold transduce, table2x2_thead, table2x2, td, th;
      rewrite !replacementForNode_element; cbv zeta; cbn [process];
      rewrite !replacementForNode_element; cbv zeta; cbn [process];
      rewrite !replacementForNode_element; cbv zeta; cbn [process];
      rewrite !replacementForNode_element; cbv zeta; cbn [process replacementForNode];
      rewrite !app_nil_r; reflexivity].
    unfold transduce, table2x2, td.
    rewrite !replacementForNode_element. cbv zeta. cbn [process].
    rewrite !replacementForNode_element. cbv zeta. cbn [process].
    rewrite !replacementForNode_element. cbv zeta. cbn [process].
    rewrite !replacementForNode_element. cbv zeta. cbn [process replacementForNode].
    change (forNode (Element "TABLE" ?x ?y)) with (Some tableRule).
    change (forNode (Element "TBODY" ?x ?y)) with (@None Rule).
    change (libraryRule (Element "TBODY" ?x ?y)) with (@None Rule).
    change (forNode (Element "TR" ?x ?y)) with (Some tableRowRule).
    change (forNode (Element "TD" ?x ?y)) with (Some tableCellRule).
    cbn [replacement tableRule tableRowRule tableCellRule].
    change (isHeaderRow (Below (Below Root "TABLE" [] []) "TBODY" [] _)) with true.
    change (isHeaderRow (Below (Below Root "TABLE" [] []) "TBODY" _ [])) with false.
    cbv iota. fold (cleanContent (escape a)) (cleanContent (escape b))
      (cleanContent (escape c)) (cleanContent (escape d)).
    change (separatorLine _) with "| ---  | ---  |".
    rewrite !app_nil_r, !app_assoc. reflexivity.
  - intros attrs kids. repeat split.
Qed.

Lemma tableRow_header_separator_witness :
  replacement tableRowRule " a | b |"
    (Below (Below Root "TABLE" [] []) "TBODY" [] [Element "TR" [] [td "c"; td "d"]])
    (Element "TR" [] [td "a"; td "b"]) options
  = "| a | b |" +:+ nl +:+ "| ---  | ---  |" +:+ nl.
Proof.
  exact (proj1 (tableRow_header_separator (fun s => s) " a | b |"
           (Below (Below Root "TABLE" [] []) "TBODY" []
              [Element "TR" [] [td "c"; td "d"]])
           (Element "TR" [] [td "a"; td "b"])) eq_refl).
Defined.

(** *** [fixBoldSpacing] on one bold span *)

Lemma spanNoStar_app (y : string) :
  all (fun c => negb (isStar c)) y = true -> spanNoStar (y +:+ "**") = (y, "**").
Proof.
  induction y as [|c y IH]; [reflexivity|].
  cbn [all]. intros H. apply andb_prop in H as [C H].
  rewrite app_cons. cbn [spanNoStar].
  destruct (isStar c); [discriminate|]. rewrite (IH H). reflexivity.
Qed.

Lemma boldAt_span (y : string) :
  all (fun c => negb (isStar c)) y = true -> boldAt ("**" +:+ y +:+ "**") = Some y.
Proof.
  intros H. unfold boldAt.
  change (stripPrefix "**" ("**" +:+ y +:+ "**")) with (Some (y +:+ "**")).
  cbv beta iota. rewrite (spanNoStar_app y H). reflexivity.
Qed.

Lemma boldParts_skip (r : string) (k : nat) :
  String.length r <= k -> boldParts k r = [].
Proof.
  revert k. induction r as [|c r IH]; intros k H; [reflexivity|].
  cbn [String.length] in H. destruct k as [|k]; [lia|].
  cbn [boldParts]. apply IH. lia.
Qed.

Lemma replacePadded_skip (r : string) (k : nat) :
  String.length r <= k -> replacePadded k r = "".
Proof.
  revert k. induction r as [|c r IH]; intros k H; [reflexivity|].
  cbn [String.length] in H. destruct k as [|k]; [lia|].
  cbn [replacePadded]. apply IH. lia.
Qed.

Lemma padded_length (y : string) :
  firstIs isSpace y = true -> lastIs isSpace y = true -> all isSpace y = false ->
  3 <= String.length y.
Proof.
  destruct y as [|a [|b [|c r]]]; cbn; intros F L A; try lia; try congruence.
  - rewrite F in A. discriminate.
  - rewrite F, L in A. discriminate.
Qed.

Lemma fixBoldSpacing_span (y : string) :
  all (fun c => negb (isStar c)) y = true ->
  firstIs isSpace y = true -> lastIs isSpace y = true -> all isSpace y = false ->
  fixBoldSpacing ("**" +:+ y +:+ "**") = "**" +:+ trim y +:+ "**".
Proof.
  intros S F L A. pose proof (padded_length y F L A) as N.
  pose proof (boldAt_span y S) as B.
  assert (String.length ("*" +:+ y +:+ "**") = String.length y + 3) as Len
    by (rewrite !length_app; cbn; lia).
  assert (paddedAt ("**" +:+ y +:+ "**") = true) as P.
  { unfold paddedAt. rewrite B, F, L.
    destruct (Nat.leb_spec 2 (String.length y)); [reflexivity|lia]. }
  assert (testPadded ("**" +:+ y +:+ "**") = true) as T.
  { change ("**" +:+ y +:+ "**") with (String "*"%char ("*" +:+ y +:+ "**")) in *.
    cbn [testPadded]. rewrite P. reflexivity. }
  unfold fixBoldSpacing.
  change ("**" +:+ y +:+ "**") with (String "*"%char ("*" +:+ y +:+ "**")) in B |- * at 1 3.
  cbn [boldParts]. rewrite B.
  rewrite (boldParts_skip _ _ (Nat.eq_le_incl _ _ Len)).
  cbn [existsb]. rewrite T. cbn [orb negb].
  cbn [replacePadded]. unfold paddedGroupAt. rewrite B, F, L, A.
  destruct (Nat.leb_spec 3 (String.length y)); [|lia]. cbn [andb].
  rewrite (replacePadded_skip _ _ (Nat.eq_le_incl _ _ Len)).
  rewrite app_nil_r. reflexivity.
Qed.

(** *** Bold text *)

Lemma forNode_unselected (name : string) (attrs : list (string * string))
    (kids : list Node) :
  toLowerCase name ∈ ["b"; "em"; "i"] -> forNode (Element name attrs kids) = None.
Proof.
  intros H. unfold forNode, customRules.
  cbn [List.find snd filter strongRule codeBlockRule imageRule
       listItemRule tableRule tableRowRule tableCellRule tag isElement nodeName andb].
  assert (String.eqb name "PRE" = false) as P.
  { destruct (String.eqb_spec name "PRE") as [->|_]; [|reflexivity].
    exfalso. repeat (apply elem_of_cons in H as [H|H]; [discriminate|]).
    inversion H. }
  rewrite P. cbn [andb].
  repeat (apply elem_of_cons in H as [H|H]; [rewrite H; reflexivity|]).
  inversion H.
Qed.

Lemma libraryRule_bold (name : string) (attrs : list (string * string))
    (kids : list Node) :
  toLowerCase name ∈ ["strong"; "b"] ->
  libraryRule (Element name attrs kids)
  = Some (delimited ["strong"; "b"] strongDelimiter).
Proof.
  intros H. unfold libraryRule, libraryRules.
  cbn [List.find filter delimited existsb tag isElement nodeName andb].
  repeat (apply elem_of_cons in H as [H|H]; [rewrite H; reflexivity|]).
  inversion H.
Qed.

Lemma libraryRule_emphasis (name : string) (attrs : list (string * string))
    (kids : list Node) :
  toLowerCase name ∈ ["em"; "i"] ->
  libraryRule (Element name attrs kids)
  = Some (delimited ["em"; "i"] emDelimiter).
Proof.
  intros H. unfold libraryRule, libraryRules.
  cbn [List.find filter delimited existsb tag isElement nodeName andb].
  repeat (apply elem_of_cons in H as [H|H]; [rewrite H; reflexivity|]).
  inversion H.
Qed.

Lemma forNode_strong (name : string) (attrs : list (string * string))
    (kids : list Node) :
  toLowerCase name = "strong" -> forNode (Element name attrs kids) = Some strongRule.
Proof.
  intros H. unfold forNode, customRules.
  cbn [List.find snd filter strongRule tag isElement nodeName andb].
  rewrite H. reflexivity.
Qed.

(** C4: for every bold element the content is trimmed before the strong
    delimiter is applied. For a STRONG element the rule selected is the one
    the repository adds: whatever the rendered content, it gives the empty
    string when the trimmed content is empty, and otherwise the trimmed
    content between two strong delimiters, so that no blank follows the
    opening delimiter and none precedes the closing one. On the walk of the
    engine every STRONG or B element is rendered that way from the rendering
    of its children, and every EM or I element likewise with the emphasis
    delimiter; so the input [<b> text </b>] gives [**text**] and never
    [** text **]. And [fixBoldSpacing] rewrites a rendering that is one bold
    span with blanks inside both delimiters, whichever rule made it, to the
    span with its text trimmed. *)
Theorem strong_content_trimmed
    (escape : string -> string) (content : string) (path : Path) (node : Node) :
  let out := replacement strongRule content path node options in
  (forall attrs kids, forNode (Element "STRONG" attrs kids) = Some strongRule)
  /\ out = (if isEmpty (trim content) then "" else "**" +:+ trim content +:+ "**")
  /\ firstIs isSpace (trim content) = false
  /\ lastIs isSpace (trim content) = false
  /\ paddedAt out = false
  /\ out <> "** text **"
  /\ replacement strongRule " text " path node options = "**text**"
  /\ (forall name attrs kids,
        toLowerCase name ∈ ["strong"; "b"] ->
        let content := process escape path name [] kids in
        let rendered := replacementForNode escape path (Element name attrs kids) in
        rendered = (if isEmpty (trim content) then ""
                    else "**" +:+ trim content +:+ "**")
        /\ paddedAt rendered = false
        /\ rendered <> "** text **")
  /\ (forall name attrs kids,
        toLowerCase name ∈ ["em"; "i"] ->
        let content := process escape path name [] kids in
        replacementForNode escape path (Element name attrs kids)
        = if isEmpty (trim content) then "" else "*" +:+ trim content +:+ "*")
  /\ (escape " text " = " text " ->
      transduce escape (Element "B" [] [Text " text "]) = "**text**"
      /\ transduce escape (Element "STRONG" [] [Text " text "]) = "**text**")
  /\ (forall y,
        all (fun c => negb (isStar c)) y = true ->
        firstIs isSpace y = true -> lastIs isSpace y = true ->
        all isSpace y = false ->
        fixBoldSpacing ("**" +:+ y +:+ "**") = "**" +:+ trim y +:+ "**").
Proof.
  intros out.
  assert (forall content,
            paddedAt (if isEmpty (trim content) then ""
                      else "**" +:+ trim content +:+ "**") = false) as Pad.
  { intros t. destruct (isEmpty (trim t)); [reflexivity|].
    apply paddedAt_strong, trim_no_leading_blank. }
  assert (paddedAt out = false) as P by apply Pad.
  split; [reflexivity|]. split; [reflexivity|].
  split; [apply trim_no_leading_blank|].
  split; [apply trim_no_trailing_blank|].
  split; [exact P|].
  split; [intros E; rewrite E in P; discriminate|].
  split; [reflexivity|].
  split; [|split; [|split; [|apply fixBoldSpacing_span]]].
  - intros name attrs kids H content0 rendered.
    assert (rendered = (if isEmpty (trim content0) then ""
                        else "**" +:+ trim content0 +:+ "**")) as R.
    { subst rendered content0. rewrite replacementForNode_element. cbv zeta.
      apply elem_of_cons in H as [H|H].
      - rewrite (forNode_strong _ _ _ H). reflexivity.
      - rewrite forNode_unselected
          by (apply elem_of_cons in H as [H|H]; [rewrite H; left|inversion H]).
        rewrite libraryRule_bold by (right; exact H). reflexivity. }
    split; [exact R|]. rewrite R.
    split; [apply Pad|].
    intros E. pose proof (Pad content0) as Q. rewrite E in Q. discriminate.
  - intros name attrs kids H content0.
    subst content0. rewrite replacementForNode_element. cbv zeta.
    rewrite forNode_unselected
      by (repeat (apply elem_of_cons in H as [H|H]; [rewrite H; set_solver|]);
          inversion H).
    rewrite libraryRule_emphasis by exact H. reflexivity.
  - intros E. unfold transduce. cbn [replacementForNode]. rewrite E. split; reflexivity.
Qed.

Lemma strong_content_trimmed_witness :
  transduce (fun text => text) (Element "B" [] [Text " text "]) = "**text**"
  /\ fixBoldSpacing "** text **" = "**text**".
Proof.
  pose proof (strong_content_trimmed (fun text => text) " text " Root
                (Element "B" [] [Text " text "])) as H.
  cbv zeta in H. destruct H as (_ & _ & _ & _ & _ & _ & _ & _ & _ & B & F).
  split; [apply B; reflexivity|].
  apply (F " text "); reflexivity.
Defined.

End RuleFacts.

(** ** [convert] *)

Module ConvertFacts.
Import Js Dom Converter ConvertTerms JsFacts.

Lemma noRun_collapseLFs (s : string) (run : nat) :
  noRun (Nat.min run 2) (collapseLFs run s) = true.
Proof.
  revert run. induction s as [|c s IH]; intros run; [reflexivity|].
  cbn [collapseLFs]. destruct (isLF c) eqn:E.
  - destruct (run <? 2) eqn:R.
    + apply Nat.ltb_lt in R. cbn [noRun]. rewrite E.
      replace (Nat.min run 2) with run by lia.
      specialize (IH (S run)). replace (Nat.min (S run) 2) with (S run) in IH by lia.
      rewrite IH. apply andb_true_iff. split; [apply Nat.ltb_lt; lia|reflexivity].
    + apply Nat.ltb_ge in R. specialize (IH (S run)).
      replace (Nat.min (S run) 2) with (Nat.min run 2) in IH by lia. exact IH.
  - cbn [noRun]. rewrite E. apply (IH 0).
Qed.

Lemma noRun_dropWhile (s : string) (k : nat) :
  noRun k s = true -> noRun 0 (dropWhile isLF s) = true.
Proof.
  revert k. induction s as [|c s IH]; intros k; [reflexivity|].
  cbn [noRun dropWhile]. destruct (isLF c) eqn:E.
  - intros H. apply andb_prop in H as [_ H]. apply (IH _ H).
  - intros H. cbn [noRun]. rewrite E. exact H.
Qed.

Lemma noRun_replaceTrailing (s : string) (k : nat) :
  noRun k s = true -> noRun k (replaceTrailing isLF "" s) = true.
Proof.
  revert k. induction s as [|c s IH]; intros k; [reflexivity|].
  cbn [replaceTrailing]. destruct (isLF c && all isLF s); [reflexivity|].
  cbn [noRun]. destruct (isLF c).
  - intros H. apply andb_prop in H as [H1 H2]. rewrite H1, (IH _ H2). reflexivity.
  - apply IH.
Qed.

Lemma collapseLFs_id (s : string) (k : nat) :
  noRun k s = true -> collapseLFs k s = s.
Proof.
  revert k. induction s as [|c s IH]; intros k; [reflexivity|].
  cbn [noRun collapseLFs]. destruct (isLF c).
  - intros H. apply andb_prop in H as [H1 H2]. rewrite H1, (IH _ H2). reflexivity.
  - intros H. rewrite (IH _ H). reflexivity.
Qed.

Lemma noRun_includes (s : string) (k : nat) :
  noRun k s = true -> includes threeLFs s = false.
Proof.
  revert k. induction s as [|c s IH]; intros k H; [reflexivity|].
  cbn [includes].
  assert (stripPrefix threeLFs (String c s) = None) as N.
  { cbn [noRun] in H. unfold threeLFs, nl.
    change (stripPrefix _ (String c s))
      with (if Ascii.eqb LF c then stripPrefix (String LF (String LF "")) s else None).
    destruct (Ascii.eqb LF c) eqn:E1; [|reflexivity].
    apply Ascii.eqb_eq in E1. subst c.
    change (isLF LF) with true in H. apply andb_prop in H as [K1 H].
    destruct s as [|d s]; [reflexivity|].
    cbn [stripPrefix]. destruct (Ascii.eqb LF d) eqn:E2; [|reflexivity].
    apply Ascii.eqb_eq in E2. subst d.
    cbn [noRun] in H. change (isLF LF) with true in H. apply andb_prop in H as [K2 H].
    destruct s as [|e s]; [reflexivity|].
    cbn [stripPrefix]. destruct (Ascii.eqb LF e) eqn:E3; [|reflexivity].
    apply Ascii.eqb_eq in E3. subst e.
    cbn [noRun] in H. change (isLF LF) with true in H. apply andb_prop in H as [K3 _].
    apply Nat.ltb_lt in K1, K2, K3. lia. }
  rewrite N. cbn [noRun] in H. destruct (isLF c).
  - apply andb_prop in H as [_ H]. apply (IH _ H).
  - apply (IH _ H).
Qed.

Lemma noRun_tidy (s : string) : noRun 0 (tidy s) = true.
Proof.
  unfold tidy. apply noRun_replaceTrailing.
  apply (noRun_dropWhile _ (Nat.min 0 2)), noRun_collapseLFs.
Qed.

Lemma tidy_no_leading_break (s : string) : firstIs isLF (tidy s) = false.
Proof. apply firstIs_replaceTrailing, firstIs_dropWhile. Qed.

Lemma tidy_no_trailing_break (s : string) : endsWithLF (tidy s) = false.
Proof. rewrite <- lastIs_LF. apply lastIs_replaceTrailing. Qed.

Lemma tidy_fixed (s : string) :
  noRun 0 s = true -> firstIs isLF s = false -> endsWithLF s = false ->
  tidy s = s.
Proof.
  intros R F L. unfold tidy.
  rewrite (collapseLFs_id _ _ R), (dropWhile_id _ _ F).
  apply replaceTrailing_id. rewrite lastIs_LF. exact L.
Qed.

Lemma tidy_idempotent (s : string) : tidy (tidy s) = tidy s.
Proof.
  apply tidy_fixed;
    [apply noRun_tidy|apply tidy_no_leading_break|apply tidy_no_trailing_break].
Qed.

Lemma endsWith_app (p x : string) : endsWith p (x +:+ p) = true.
Proof.
  induction x as [|c x IH].
  - rewrite app_nil_l. destruct p; cbn [endsWith]; rewrite String.eqb_refl; reflexivity.
  - rewrite app_cons. cbn [endsWith]. rewrite IH. apply orb_true_r.
Qed.

(** C7, as the specification words it, fails: an excerpt that is not blank
    but whose transduction is the empty string is not put in front: the
    result starts with the document, where the claim has an empty excerpt
    and a blank line first. *)
Lemma blank_excerpt_rendering_dropped :
  blankExcerpt (VString "<br>") = false
  /\ sampleEngine "<br>" = Returns ""
  /\ convert sampleEngine (VString "x") (withExcerptOption (VString "<br>"))
     = Returns ("x" +:+ nl +:+ nl +:+ generateFooter)
  /\ convert sampleEngine (VString "x") (withExcerptOption (VString "<br>"))
     <> Returns ("" +:+ nl +:+ nl +:+ "x" +:+ nl +:+ nl +:+ generateFooter).
Proof. repeat split. discriminate. Qed.

(** C7, amended: when the engine renders a non-empty input, the rendering
    goes through [fixBoldSpacing] and then has its runs of three or more line
    breaks reduced to two and the line breaks at both ends removed: the body
    has no three line breaks in a row, and none at its start or end. Then
    (a) when the excerpt is not blank and its own transduction is not empty,
    that transduction and a blank line are put in front, and when that
    transduction is empty nothing is; (b) a blank line and the footer are put
    behind. Every conversion whose [try] block completes ends with the
    footer. *)
Theorem convert_postprocessing
    (turndown : string -> Completion string) (c : ascii) (r : string)
    (options : ConvertOptions) (rendered : string) :
  let html := String c r in
  turndown html = Returns rendered ->
  let body := tidy (fixBoldSpacing rendered) in
  (includes threeLFs body = false /\ firstIs isLF body = false
   /\ endsWithLF body = false)
  /\ (forall e excerptMarkdown,
        excerpt options = VString e -> isEmpty (trim e) = false ->
        turndown e = Returns excerptMarkdown ->
        convert turndown (VString html) options
        = Returns ((if isEmpty excerptMarkdown then ""
                    else excerptMarkdown +:+ nl +:+ nl)
                   +:+ body +:+ nl +:+ nl +:+ generateFooter))
  /\ (blankExcerpt (excerpt options) = true ->
      convert turndown (VString html) options
      = Returns (body +:+ nl +:+ nl +:+ generateFooter))
  /\ (forall out,
        convertBody turndown html options = Returns out ->
        convert turndown (VString html) options = Returns out
        /\ endsWith generateFooter out = true).
Proof.
  intros html T body.
  split; [|split; [|split]].
  - split; [apply (noRun_includes _ 0), noRun_tidy|].
    split; [apply tidy_no_leading_break|apply tidy_no_trailing_break].
  - intros e ex E B X. cbn [convert try_catch]. fold html.
    unfold convertBody. rewrite T. cbn [mbind completion_bind].
    fold body. unfold withExcerpt. rewrite E.
    destruct (isEmpty e) eqn:Ee.
    { apply trim_empty_of_empty in Ee. congruence. }
    rewrite B. cbn [negb andb]. rewrite X. cbn [mbind completion_bind mret completion_ret].
    destruct (isEmpty ex); cbn [negb]; [reflexivity|].
    rewrite !app_assoc. reflexivity.
  - intros B. cbn [convert try_catch]. fold html.
    unfold convertBody. rewrite T. cbn [mbind completion_bind].
    fold body. unfold withExcerpt.
    destruct (excerpt options) as [| |e|[|]]; cbn [blankExcerpt negb] in B;
      try discriminate; try reflexivity.
    rewrite B, andb_false_r. reflexivity.
  - intros out H. cbn [convert try_catch]. fold html. rewrite H. split; [reflexivity|].
    unfold convertBody in H. rewrite T in H. cbn [mbind completion_bind] in H.
    destruct (withExcerpt turndown options (tidy (fixBoldSpacing rendered))) as [m|];
      [|discriminate].
    cbn [mbind completion_bind mret completion_ret] in H. injection H as <-.
    rewrite <- !app_assoc. apply endsWith_app.
Qed.

Lemma convert_postprocessing_witness :
  convert sampleEngine
    (VString ("a" +:+ nl +:+ nl +:+ nl +:+ nl +:+ "b" +:+ nl))
    (withExcerptOption (VString "e"))
  = Returns ("e" +:+ nl +:+ nl +:+ "a" +:+ nl +:+ nl +:+ "b"
             +:+ nl +:+ nl +:+ generateFooter).
Proof.
  exact (proj1 (proj2
    (convert_postprocessing sampleEngine "a"%char
       (nl +:+ nl +:+ nl +:+ nl +:+ "b" +:+ nl)
       (withExcerptOption (VString "e"))
       ("a" +:+ nl +:+ nl +:+ nl +:+ nl +:+ "b" +:+ nl) eq_refl))
    "e" "e" eq_refl eq_refl eq_refl).
Defined.

(** C8: [convert] never throws, whatever the input and the options: when
    the engine throws on the markup, or anything else in the [try] block
    does, the call returns the markup it was given, unchanged. *)
Theorem convert_never_throws
    (turndown : string -> Completion string) (html : Value)
    (options : ConvertOptions) :
  (exists out, convert turndown html options = Returns out)
  /\ (forall c r,
        html = VString (String c r) -> turndown (String c r) = Throws ->
        convert turndown html options = Returns (String c r))
  /\ (forall c r,
        html = VString (String c r) ->
        convertBody turndown (String c r) options = Throws ->
        convert turndown html options = Returns (String c r)).
Proof.
  split; [|split].
  - destruct html as [| |[|c r]|b]; cbn [convert try_catch]; eauto.
    destruct (convertBody turndown (String c r) options); eauto.
  - intros c r -> T. cbn [convert try_catch]. unfold convertBody. rewrite T. reflexivity.
  - intros c r -> T. cbn [convert try_catch]. rewrite T. reflexivity.
Qed.

Lemma convert_never_throws_witness :
  convert sampleEngine (VString "<boom>") noOptions = Returns "<boom>".
Proof.
  exact (proj1 (proj2 (convert_never_throws sampleEngine (VString "<boom>") noOptions))
           "<"%char "boom>" eq_refl eq_refl).
Defined.

(** C10: when the input of [convert] is not a non-empty string ([null],
    [undefined], a value that is not a string, or the empty string), the
    result is the empty string, whatever the engine and the options: no
    excerpt is put in front and no footer behind, while a conversion of a
    non-empty string that completes ends with the footer. *)
Theorem convert_of_no_markup
    (turndown : string -> Completion string) (html : Value)
    (options : ConvertOptions) :
  isNonEmptyString html = false ->
  convert turndown html options = Returns ""
  /\ endsWith generateFooter "" = false
  /\ (forall c r out,
        convertBody turndown (String c r) options = Returns out ->
        convert turndown (VString (String c r)) options = Returns out
        /\ endsWith generateFooter out = true /\ out <> "").
Proof.
  intros H. split; [|split].
  - destruct html as [| |[|c r]|b]; try reflexivity. discriminate.
  - reflexivity.
  - intros c r out B. cbn [convert try_catch]. rewrite B. split; [reflexivity|].
    unfold convertBody in B. destruct (turndown (String c r)) as [m|]; [|discriminate].
    cbn [mbind completion_bind] in B.
    destruct (withExcerpt turndown options (tidy (fixBoldSpacing m))) as [m'|];
      [|discriminate].
    cbn [mbind completion_bind mret completion_ret] in B. injection B as <-.
    split.
    + rewrite <- !app_assoc. apply endsWith_app.
    + intros E. apply (f_equal String.length) in E.
      rewrite !length_app in E. cbn in E. lia.
Qed.

Lemma convert_of_no_markup_witness :
  convert sampleEngine VNull (withExcerptOption (VString "<p>e</p>")) = Returns "".
Proof.
  exact (proj1 (convert_of_no_markup sampleEngine VNull
                  (withExcerptOption (VString "<p>e</p>")) eq_refl)).
Defined.

(** C9, on the walk modelled from the specification: take the output of the
    engine on any tree, with its whitespace normalised. Normalising it again
    changes nothing; transducing it again as one text node gives its escaped
    text and nothing else; so when escaping leaves it alone, transducing and
    normalising it again gives it back. *)
Theorem retransduction_is_escaping (escape : string -> string) (root : Node) :
  let out := tidy (transduce escape root) in
  tidy out = out
  /\ transduce escape (Text out) = escape out
  /\ (forNode (Text out) = None)
  /\ (escape out = out -> tidy (transduce escape (Text out)) = out).
Proof.
  intros out. split; [apply tidy_idempotent|].
  split; [reflexivity|]. split; [reflexivity|].
  intros E. cbn [transduce replacementForNode]. rewrite E. apply tidy_idempotent.
Qed.

Lemma retransduction_is_escaping_witness :
  tidy (transduce (fun text => text)
          (Text (tidy (transduce (fun text => text)
                         (Element "DIV" [] [Text ("a" +:+ nl +:+ nl +:+ nl +:+ "b")])))))
  = "a" +:+ nl +:+ nl +:+ "b".
Proof.
  exact (proj2 (proj2 (proj2
    (retransduction_is_escaping (fun text => text)
       (Element "DIV" [] [Text ("a" +:+ nl +:+ nl +:+ nl +:+ "b")])))) eq_refl).
Defined.

End ConvertFacts.

(** ** [processTags] *)

Module TagFacts.
Import Js Converter TagTerms JsFacts.

Lemma newSet_firstOccurrences (l acc : list string) :
  fold_left setAdd l acc = acc ++ firstOccurrences acc l.
Proof.
  revert acc. induction l as [|x l IH]; intros acc.
  - cbn. rewrite List.app_nil_r. reflexivity.
  - cbn [fold_left firstOccurrences]. unfold setAdd at 2.
    destruct (bool_decide (x ∈ acc)); [apply IH|].
    rewrite IH, <- List.app_assoc. reflexivity.
Qed.

Lemma slice0_take {A} (l : list A) (n : nat) : slice0 l (Z.of_nat n) = take n l.
Proof.
  unfold slice0.
  destruct (Z.ltb_spec (Z.of_nat n) 0) as [H|_]; [lia|].
  destruct (Nat.le_gt_cases n (length l)) as [H|H].
  - rewrite Z.min_l by lia. rewrite Nat2Z.id. reflexivity.
  - rewrite Z.min_r by lia. rewrite Nat2Z.id.
    rewrite !firstn_all2 by lia. reflexivity.
Qed.

Lemma split_empty_tags : List.filter (fun tag => negb (isEmpty tag)) (map trim (split ","%char "")) = [].
Proof. reflexivity. Qed.

Lemma length_pos_nonempty (s : string) : (0 <? String.length s) = negb (isEmpty s).
Proof. destruct s; reflexivity. Qed.

Lemma trim_idempotent (s : string) : trim (trim s) = trim s.
Proof.
  unfold trim at 1.
  rewrite (dropWhile_id _ _ (trim_no_leading_blank s)).
  apply replaceTrailing_id, trim_no_trailing_blank.
Qed.

Lemma firstOccurrences_subset (l seen : list string) (x : string) :
  In x (firstOccurrences seen l) -> In x l.
Proof.
  revert seen. induction l as [|y l IH]; intros seen; [trivial|].
  cbn [firstOccurrences]. destruct (bool_decide (y ∈ seen)).
  - intros H. right. apply (IH _ H).
  - intros [H|H]; [left; exact H|right; apply (IH _ H)].
Qed.

Lemma normalize_ext (f g : string -> string) (cands : list string) (n m : nat) :
  (forall t, In t cands -> f t = g t) -> f "AI" = g "AI" ->
  normalize f cands n m = normalize g cands n m.
Proof.
  intros H D. unfold normalize.
  assert (forall t, In t (firstOccurrences [] cands) -> f t = g t) as H'
    by (intros t I; apply H, (firstOccurrences_subset _ _ _ I)).
  revert H'. generalize (firstOccurrences [] cands) as u. intros u H'.
  assert (List.filter (fun tag => negb (isEmpty (f tag)) && (String.length (f tag) <=? m)) u
          = List.filter (fun tag => negb (isEmpty (g tag)) && (String.length (g tag) <=? m)) u)
    as F.
  { apply List.filter_ext_in. intros t I. rewrite (H' t I). reflexivity. }
  rewrite F.
  set (v := List.filter _ u).
  assert (forall t, In t (take n v) -> f t = g t) as K.
  { intros t I. apply H'. apply list_elem_of_In, elem_of_take in I as (i & I & _).
    apply list_elem_of_lookup_2, list_elem_of_In in I.
    subst v. apply List.filter_In in I as [I _]. exact I. }
  destruct (take n v) as [|a w] eqn:T.
  - cbn. rewrite D. reflexivity.
  - apply List.map_ext_in. intros t I. rewrite (K t I). reflexivity.
Qed.

Lemma firstOccurrences_fresh (l seen : list string) (x : string) :
  x ∈ firstOccurrences seen l -> x ∉ seen.
Proof.
  revert seen. induction l as [|y l IH]; intros seen; cbn [firstOccurrences].
  - intros H. inversion H.
  - destruct (bool_decide (y ∈ seen)) eqn:E.
    + apply IH.
    + apply bool_decide_eq_false in E.
      intros H. apply elem_of_cons in H as [->|H]; [exact E|].
      apply IH in H. intros I. apply H, elem_of_app. left. exact I.
Qed.

Lemma firstOccurrences_NoDup (l seen : list string) : NoDup (firstOccurrences seen l).
Proof.
  revert seen. induction l as [|y l IH]; intros seen; cbn [firstOccurrences].
  - constructor.
  - destruct (bool_decide (y ∈ seen)); [apply IH|].
    constructor; [|apply IH].
    intros H. apply firstOccurrences_fresh in H.
    apply H, elem_of_app. right. left.
Qed.

Lemma firstOccurrences_complete (l seen : list string) (x : string) :
  x ∈ l -> x ∉ seen -> x ∈ firstOccurrences seen l.
Proof.
  revert seen. induction l as [|y l IH]; intros seen I N; cbn [firstOccurrences].
  - inversion I.
  - destruct (bool_decide (y ∈ seen)) eqn:E.
    + apply bool_decide_eq_true in E.
      apply elem_of_cons in I as [->|I]; [contradiction|]. apply IH; assumption.
    + apply elem_of_cons in I as [->|I]; [left|].
      destruct (decide (x = y)) as [->|D]; [left|].
      right. apply IH; [exact I|].
      intros H. apply elem_of_app in H as [H|H]; [contradiction|].
      apply list_elem_of_singleton in H. contradiction.
Qed.

(** C2, as the specification words it, fails: a category that carries a
    blank in front is measured and given without it, which the pipeline of
    the specification does not do. *)
Lemma tag_names_are_trimmed :
  processTags (CArray [CString " A"]) (VString "") 5 = [ {| name := "A" |} ]
  /\ normalize_as_specified (CArray [CString " A"]) "" 5 20 = [ {| name := " A" |} ]
  /\ processTags (CArray [CString " A"]) (VString "") 5
     <> normalize_as_specified (CArray [CString " A"]) "" 5 20.
Proof. repeat split. discriminate. Qed.

(** C2, amended: for every categories input, string of tags and count
    [maxTags], the normalizer flattens the categories, splits the tags on
    commas and trims each segment, puts both in one list in that order,
    keeps the first occurrence of each string, discards the candidates that
    after trimming are empty or longer than 20, keeps the first [maxTags]
    of the rest, takes the default tag when none is left, and gives each one
    trimmed. The first occurrences are pairwise different and are all the
    candidates. When no candidate carries a blank at either end this is the
    pipeline of the specification. The result is never empty, and every
    name in it is trimmed, not empty and at most 20 long; the two examples of
    the specification hold. *)
Theorem processTags_normalizes
    (categories : Categories) (rawTags : string) (maxTags : nat) :
  let out := processTags categories (VString rawTags) (Z.of_nat maxTags) in
  let cands := candidates categories rawTags in
  out = normalize trim cands maxTags 20
  /\ (NoDup (firstOccurrences [] cands)
      /\ forall tag, tag ∈ firstOccurrences [] cands <-> tag ∈ cands)
  /\ ((forall tag, In tag cands -> trim tag = tag) ->
      out = normalize_as_specified categories rawTags maxTags 20)
  /\ out <> []
  /\ Forall (fun t => trim (name t) = name t /\ name t <> ""
                      /\ String.length (name t) <= 20) out
  /\ processTags (CArray [CString "A"; CString "A"; CString "B"]) (VString "c, d") 5
     = [ {| name := "A" |}; {| name := "B" |}; {| name := "c" |}; {| name := "d" |} ]
  /\ processTags (CArray []) (VString "") 5 = [ {| name := "AI" |} ].
Proof.
  intros out cands.
  assert (out = normalize trim cands maxTags 20) as E.
  { subst out cands. unfold processTags, normalize, candidates.
    set (fromCategories := match categories with
                           | CArray l => flat_map pushed l
                           | CSingle c => pushed c
                           end).
    assert (match rawTags with
            | String _ _ =>
                fromCategories ++
                List.filter (fun tag => 0 <? String.length tag)
                  (map trim (split ","%char rawTags))
            | EmptyString => fromCategories
            end
            = fromCategories ++
              List.filter (fun tag => negb (isEmpty tag))
                (map trim (split ","%char rawTags))) as A.
    { destruct rawTags as [|c r].
      - rewrite split_empty_tags, List.app_nil_r. reflexivity.
      - f_equal. apply List.filter_ext. intros t. apply length_pos_nonempty. }
    rewrite A. clear A.
    unfold newSet. rewrite newSet_firstOccurrences, List.app_nil_l, slice0_take.
    set (u := firstOccurrences [] _).
    assert (List.filter
              (fun tag => if isEmpty tag then false
                          else (0 <? String.length (trim tag))
                               && (String.length (trim tag) <=? 20)) u
            = List.filter
                (fun tag => negb (isEmpty (trim tag))
                            && (String.length (trim tag) <=? 20)) u) as F.
    { apply List.filter_ext. intros t. rewrite length_pos_nonempty.
      destruct (isEmpty t) eqn:T; [|reflexivity].
      rewrite (trim_empty_of_empty t T). reflexivity. }
    rewrite F. reflexivity. }
  split; [exact E|]. split.
  { split; [apply firstOccurrences_NoDup|].
    intros tag. split.
    - intros H. apply list_elem_of_In, firstOccurrences_subset in H.
      apply list_elem_of_In. exact H.
    - intros H. apply firstOccurrences_complete; [exact H|].
      intros I. inversion I. }
  split.
  { intros H. rewrite E. unfold normalize_as_specified.
    apply normalize_ext; [exact H|reflexivity]. }
  split; [rewrite E; unfold normalize; destruct (take maxTags _); discriminate|].
  split; [|split; reflexivity].
  rewrite E. unfold normalize.
  set (kept := List.filter _ (firstOccurrences [] cands)).
  assert (Forall (fun tag => trim (trim tag) = trim tag /\ trim tag <> ""
                             /\ String.length (trim tag) <= 20) (take maxTags kept)) as K.
  { apply Forall_forall. intros tag I.
    apply elem_of_take in I as (i & I & _).
    apply list_elem_of_lookup_2, list_elem_of_In in I.
    subst kept. apply List.filter_In in I as [_ I].
    apply andb_prop in I as [I1 I2].
    split; [apply trim_idempotent|]. split.
    - intros Z. rewrite Z in I1. discriminate.
    - apply Nat.leb_le. exact I2. }
  destruct (take maxTags kept) as [|a w].
  - apply List.Forall_cons; [|apply List.Forall_nil].
    split; [reflexivity|]. split; [discriminate|].
    apply Nat.leb_le. reflexivity.
  - apply Forall_fmap. exact K.
Qed.

Lemma processTags_normalizes_witness :
  processTags (CArray [CString "A"; CObject (Some "B") None]) (VString "c, d")
    (Z.of_nat 3)
  = normalize_as_specified (CArray [CString "A"; CObject (Some "B") None]) "c, d" 3 20.
Proof.
  refine (proj1 (proj2 (proj2
    (processTags_normalizes (CArray [CString "A"; CObject (Some "B") None]) "c, d" 3)))
    _).
  intros tag H. cbn in H.
  destruct H as [<-|[<-|[<-|[<-|[]]]]]; reflexivity.
Defined.

End TagFacts.

(** ** The sync decision and the batch *)

Module SyncFacts.
Import Js Sync SyncTerms.

Lemma articleHistoryOf_ext (m1 m2 : gmap string ArticleHistory) (x : string) :
  m1 !! x = m2 !! x -> articleHistoryOf m1 x = articleHistoryOf m2 x.
Proof. unfold articleHistoryOf. intros ->. reflexivity. Qed.

Lemma articleHistoryOf_entry (m : gmap string ArticleHistory) (x : string)
    (record : ArticleHistory) :
  m !! x = Some record -> articleHistoryOf m x = Entry record.
Proof. unfold articleHistoryOf. intros ->. reflexivity. Qed.

Section Decision.

Variable dateValue : string -> option Z.

Local Abbreviation strictlyLater := (SyncTerms.strictlyLater dateValue).

Lemma effectiveTimestamp_firstPresent (article : Article) :
  truthy (effectiveTimestamp article) = true ->
  firstPresent [updatedAt article; revisedAt article; publishedAt article]
  = effectiveTimestamp article.
Proof.
  unfold effectiveTimestamp, or_else, firstPresent.
  destruct (updatedAt article) as [[|? ?]|], (revisedAt article) as [[|? ?]|],
    (publishedAt article) as [[|? ?]|]; cbn; intros H; first [discriminate|reflexivity].
Qed.

Lemma firstPresent_effectiveTimestamp (article : Article) (a : string) :
  firstPresent [updatedAt article; revisedAt article; publishedAt article] = Some a ->
  effectiveTimestamp article = Some a /\ truthy (Some a) = true.
Proof.
  unfold effectiveTimestamp, or_else, firstPresent.
  destruct (updatedAt article) as [[|? ?]|], (revisedAt article) as [[|? ?]|],
    (publishedAt article) as [[|? ?]|]; cbn; intros H;
    first [discriminate|injection H as <-; split; reflexivity].
Qed.

Lemma decideFrom_later (article : Article) (record : ArticleHistory) :
  strictlyLater article record ->
  decideFrom dateValue article (Entry record)
  = {| shouldSync := true; action := update; decidedQiitaId := Some (qiitaId record) |}.
Proof.
  intros (a & b & x & y & A & B & N & X & Y & L).
  apply firstPresent_effectiveTimestamp in A as [A T].
  cbn [decideFrom]. rewrite A, B, T. unfold default, from_option, Datatypes.id.
  assert (truthy (Some b) = true) as Tb by (destruct b; [congruence|reflexivity]).
  unfold laterThan. rewrite Tb, X, Y.
  apply Z.ltb_lt in L. rewrite L. reflexivity.
Qed.

Lemma decideFrom_not_later (article : Article) (record : ArticleHistory) :
  ~ strictlyLater article record ->
  decideFrom dateValue article (Entry record)
  = {| shouldSync := false; action := skip; decidedQiitaId := None |}.
Proof.
  intros N. cbn [decideFrom].
  destruct (truthy (effectiveTimestamp article)
            && truthy (microCMSUpdatedAt record)
            && laterThan dateValue (default "" (effectiveTimestamp article))
                 (default "" (microCMSUpdatedAt record))) eqn:C; [|reflexivity].
  exfalso. apply N.
  apply andb_prop in C as [C L]. apply andb_prop in C as [Ta Tb].
  pose proof (effectiveTimestamp_firstPresent article Ta) as F.
  destruct (effectiveTimestamp article) as [a|]; [|discriminate].
  destruct (microCMSUpdatedAt record) as [b|] eqn:B; [|discriminate].
  unfold default, from_option, Datatypes.id, laterThan in L.
  destruct (dateValue a) as [x|] eqn:X; [|discriminate].
  destruct (dateValue b) as [y|] eqn:Y; [|discriminate].
  apply Z.ltb_lt in L.
  exists a, b, x, y. repeat split; try assumption.
  intros ->. discriminate.
Qed.

(** X15: [shouldSyncArticle] leaves the history as it was. With no entry
    stored under the id of the article, the decision is [create] when the id
    is not the name of a member every object inherits, and [skip] when it
    is. With an entry, when the effective timestamp of the article (the
    first present of [updatedAt], [revisedAt], [publishedAt]) and the stored
    [microCMSUpdatedAt] are both present, both are dates, and the date of the
    first is strictly after the date of the second, the decision is [update]
    with the [qiitaId] of the entry. With an entry in any other case the
    decision is [skip]: so it is when the two dates are equal or the date of
    the article is the older one, when either timestamp is absent, and when
    either is not a date. *)
Theorem shouldSyncArticle_decides (article : Article) (history : History) :
  snd (shouldSyncArticle dateValue article history) = history
  /\ (articles history !! id article = None ->
      id article ∉ objectPrototype ->
      fst (shouldSyncArticle dateValue article history)
      = {| shouldSync := true; action := create; decidedQiitaId := None |})
  /\ (articles history !! id article = None ->
      id article ∈ objectPrototype ->
      fst (shouldSyncArticle dateValue article history)
      = {| shouldSync := false; action := skip; decidedQiitaId := None |})
  /\ (forall record,
        articles history !! id article = Some record ->
        strictlyLater article record ->
        fst (shouldSyncArticle dateValue article history)
        = {| shouldSync := true; action := update;
             decidedQiitaId := Some (qiitaId record) |})
  /\ (forall record,
        articles history !! id article = Some record ->
        ~ strictlyLater article record ->
        fst (shouldSyncArticle dateValue article history)
        = {| shouldSync := false; action := skip; decidedQiitaId := None |})
  /\ (forall record a b x y,
        articles history !! id article = Some record ->
        firstPresent [updatedAt article; revisedAt article; publishedAt article]
        = Some a ->
        microCMSUpdatedAt record = Some b ->
        dateValue a = Some x -> dateValue b = Some y -> (x <= y)%Z ->
        fst (shouldSyncArticle dateValue article history)
        = {| shouldSync := false; action := skip; decidedQiitaId := None |})
  /\ (forall record,
        articles history !! id article = Some record ->
        firstPresent [updatedAt article; revisedAt article; publishedAt article] = None
        \/ microCMSUpdatedAt record = None
        \/ microCMSUpdatedAt record = Some ""
        \/ (exists a, firstPresent [updatedAt article; revisedAt article;
                                     publishedAt article] = Some a
                      /\ dateValue a = None)
        \/ (exists b, microCMSUpdatedAt record = Some b /\ dateValue b = None) ->
        fst (shouldSyncArticle dateValue article history)
        = {| shouldSync := false; action := skip; decidedQiitaId := None |}).
Proof.
  split; [reflexivity|]. unfold shouldSyncArticle. cbn [fst].
  split; [|split; [|split; [|split; [|split]]]].
  - intros E N. unfold articleHistoryOf. rewrite E.
    rewrite bool_decide_eq_false_2 by exact N. reflexivity.
  - intros E I. unfold articleHistoryOf. rewrite E.
    rewrite bool_decide_eq_true_2 by exact I. reflexivity.
  - intros record E L. rewrite (articleHistoryOf_entry _ _ _ E).
    apply decideFrom_later, L.
  - intros record E N. rewrite (articleHistoryOf_entry _ _ _ E).
    apply decideFrom_not_later, N.
  - intros record a b x y E A B X Y L. rewrite (articleHistoryOf_entry _ _ _ E).
    apply decideFrom_not_later.
    intros (a' & b' & x' & y' & A' & B' & _ & X' & Y' & L').
    rewrite A in A'. injection A' as <-. rewrite B in B'. injection B' as <-.
    rewrite X in X'. injection X' as <-. rewrite Y in Y'. injection Y' as <-. lia.
  - intros record E H. rewrite (articleHistoryOf_entry _ _ _ E).
    apply decideFrom_not_later.
    intros (a' & b' & x' & y' & A' & B' & N' & X' & Y' & _).
    destruct H as [H|[H|[H|[(a & A & X)|(b & B & Y)]]]]; try congruence.
Qed.

End Decision.

Lemma shouldSyncArticle_decides_witness :
  fst (shouldSyncArticle isoDateValue (sampleArticle "a1" "2024-02-01")
         {| lastSyncTime := None; articles := {[ "a1" := sampleRecord ]} |})
  = {| shouldSync := true; action := update; decidedQiitaId := Some "q1" |}
  /\ fst (shouldSyncArticle isoDateValue (sampleArticle "a1" "2024-01-01")
            {| lastSyncTime := None; articles := {[ "a1" := sampleRecord ]} |})
     = {| shouldSync := false; action := skip; decidedQiitaId := None |}.
Proof.
  split.
  - refine (proj1 (proj2 (proj2 (proj2
      (shouldSyncArticle_decides isoDateValue (sampleArticle "a1" "2024-02-01")
         {| lastSyncTime := None; articles := {[ "a1" := sampleRecord ]} |}))))
      sampleRecord eq_refl _).
    exists "2024-02-01", "2024-01-01", 1706745600000%Z, 1704067200000%Z.
    repeat split. discriminate.
  - refine (proj1 (proj2 (proj2 (proj2 (proj2 (proj2
      (shouldSyncArticle_decides isoDateValue (sampleArticle "a1" "2024-01-01")
         {| lastSyncTime := None; articles := {[ "a1" := sampleRecord ]} |}))))))
      sampleRecord "2024-01-01" "2024-01-01" 1704067200000%Z 1704067200000%Z
      eq_refl eq_refl eq_refl eq_refl eq_refl _).
    lia.
Defined.

(** C1 fails on the code at an article whose id is the name of a member
    every object inherits: with nothing stored under [constructor], the
    lookup [history.articles[article.id]] finds the inherited member, which
    is truthy, so the decision is [skip] where the claim has [create], and a
    run on the history of a new installation sends no request for the
    article and records nothing. *)
Lemma inherited_id_is_skipped :
  let article := sampleArticle "constructor" "2024-02-01" in
  let result :=
    syncArticles isoDateValue ConvertTerms.sampleEngine None samplePost samplePatch
      sampleNow "2024-03-01" [article] emptyHistory in
  articles emptyHistory !! id article = None
  /\ fst (shouldSyncArticle isoDateValue article emptyHistory)
     = {| shouldSync := false; action := skip; decidedQiitaId := None |}
  /\ fst (shouldSyncArticle isoDateValue article emptyHistory)
     <> {| shouldSync := true; action := create; decidedQiitaId := None |}
  /\ synced result = 0 /\ errors result = 0
  /\ articles (saved result) !! id article = None.
Proof. repeat split. discriminate. Qed.

Section Batch.

Variable dateValue : string -> option Z.
Variable turndown : string -> Completion string.
Variable originalSiteUrl : option string.
Variable post : nat -> Payload -> Completion string.
Variable patch : nat -> string -> Payload -> Completion string.
Variable now : nat -> string.
Variable endTime : string.

Local Abbreviation publish' := (publish turndown originalSiteUrl post patch).
Local Abbreviation step := (processArticle dateValue turndown originalSiteUrl post patch now).
Local Abbreviation run := (loop dateValue turndown originalSiteUrl post patch now).
Local Abbreviation attempt := (SyncTerms.attempt dateValue turndown originalSiteUrl post patch).
Local Abbreviation failed := (SyncTerms.failed dateValue turndown originalSiteUrl post patch).
Local Abbreviation succeeded := (SyncTerms.succeeded dateValue turndown originalSiteUrl post patch).
Local Abbreviation entryAfter := (SyncTerms.entryAfter dateValue turndown originalSiteUrl post patch now).

Lemma attempt_ext (i : nat) (article : Article) (m1 m2 : gmap string ArticleHistory) :
  m1 !! id article = m2 !! id article -> attempt i article m1 = attempt i article m2.
Proof.
  intros E. unfold SyncTerms.attempt. rewrite (articleHistoryOf_ext _ _ _ E).
  reflexivity.
Qed.

Lemma step_same (total i : nat) (article : Article) (st : Run) :
  articles (history (step total i article st)) !! id article
  = entryAfter i article (articles (history st)).
Proof.
  unfold SyncTerms.entryAfter, SyncTerms.attempt, processArticle, shouldSyncArticle.
  destruct (shouldSync (decideFrom dateValue article _)); cbn [negb]; [|reflexivity].
  destruct (publish turndown originalSiteUrl post patch i article _); cbn.
  - apply lookup_insert_eq.
  - reflexivity.
Qed.

Lemma step_other (total i : nat) (article : Article) (st : Run) (x : string) :
  x <> id article ->
  articles (history (step total i article st)) !! x = articles (history st) !! x.
Proof.
  intros N. unfold processArticle, shouldSyncArticle.
  destruct (shouldSync (decideFrom dateValue article _)); cbn [negb]; [|reflexivity].
  destruct (publish turndown originalSiteUrl post patch i article _); cbn.
  - apply lookup_insert_ne. congruence.
  - reflexivity.
Qed.

Lemma step_counts (total i : nat) (article : Article) (st : Run) :
  errorCount (step total i article st)
  = errorCount st + (if failed (articles (history st)) i article then 1 else 0)
  /\ syncCount (step total i article st)
     = syncCount st + (if succeeded (articles (history st)) i article then 1 else 0)
  /\ lastSyncTime (history (step total i article st)) = lastSyncTime (history st).
Proof.
  unfold SyncTerms.failed, SyncTerms.succeeded, SyncTerms.attempt, processArticle,
    shouldSyncArticle.
  destruct (shouldSync (decideFrom dateValue article _)); cbn [negb].
  - destruct (publish turndown originalSiteUrl post patch i article _); cbn;
      repeat split; lia.
  - cbn. repeat split; lia.
Qed.

(** The loop over a batch of articles with pairwise different ids, from a
    state whose history agrees with [h0] on those ids. *)
Lemma loop_spec (total : nat) (batch : list Article) :
  forall (i : nat) (st : Run) (h0 : gmap string ArticleHistory),
    NoDup (map id batch) ->
    (forall a, a ∈ batch -> articles (history st) !! id a = h0 !! id a) ->
    let st' := run total i batch st in
    (forall k a, batch !! k = Some a ->
       articles (history st') !! id a = entryAfter (i + k) a h0)
    /\ (forall x, x ∉ map id batch ->
          articles (history st') !! x = articles (history st) !! x)
    /\ errorCount st' = errorCount st + tally (failed h0) i batch
    /\ syncCount st' = syncCount st + tally (succeeded h0) i batch
    /\ lastSyncTime (history st') = lastSyncTime (history st).
Proof.
  induction batch as [|a rest IH]; intros i st h0 D A st'.
  - subst st'. cbn. repeat split; try lia. intros k a K. discriminate.
  - cbn [map] in D. apply NoDup_cons in D as [Fresh D].
    subst st'. cbn [run loop]. fold run. fold step.
    set (st1 := step total i a st).
    assert (forall b, b ∈ rest -> articles (history st1) !! id b = h0 !! id b) as A1.
    { intros b B. subst st1. rewrite step_other.
      - apply A. right. exact B.
      - intros E. apply Fresh. rewrite <- E. apply list_elem_of_fmap_2. exact B. }
    destruct (IH (S i) st1 h0 D A1) as (P & O & Er & Sy & T).
    destruct (step_counts total i a st) as (Er1 & Sy1 & T1). fold st1 in Er1, Sy1, T1.
    assert (articles (history st) !! id a = h0 !! id a) as Aa by (apply A; left).
    pose proof (attempt_ext i a _ _ Aa) as At.
    repeat split.
    + intros k b K. destruct k as [|k].
      * injection K as <-. rewrite Nat.add_0_r.
        rewrite O by exact Fresh. subst st1. rewrite step_same.
        unfold SyncTerms.entryAfter. rewrite At, Aa. reflexivity.
      * replace (i + S k) with (S i + k) by lia. apply P. exact K.
    + intros x N. rewrite O.
      * subst st1. apply step_other. intros E. apply N. rewrite E. left.
      * intros I. apply N. right. exact I.
    + rewrite Er, Er1. cbn [tally]. unfold SyncTerms.failed at 1 3. rewrite At. lia.
    + rewrite Sy, Sy1. cbn [tally]. unfold SyncTerms.succeeded at 1 3. rewrite At. lia.
    + rewrite T, T1. reflexivity.
Qed.


End Batch.


End SyncFacts.

(** ** Runs that follow one another *)

Module RunFacts.
Import Js Sync SyncTerms MoreTerms SyncFacts.

Section Skips.

Variable dateValue : string -> option Z.
Variable turndown : string -> Completion string.
Variable originalSiteUrl : option string.
Variable post : nat -> Payload -> Completion string.
Variable patch : nat -> string -> Payload -> Completion string.
Variable now : nat -> string.

Local Abbreviation step := (processArticle dateValue turndown originalSiteUrl post patch now).
Local Abbreviation run := (loop dateValue turndown originalSiteUrl post patch now).

Lemma laterThan_irrefl (a : string) : laterThan dateValue a a = false.
Proof. unfold laterThan. destruct (dateValue a); [apply Z.ltb_irrefl|reflexivity]. Qed.

Lemma decideFrom_own_entry (i : nat) (article : Article) (qiitaArticleId : string) :
  decideFrom dateValue article (Entry (entryFor now i article qiitaArticleId))
  = skipDecision.
Proof.
  unfold decideFrom, entryFor. cbn [microCMSUpdatedAt].
  rewrite laterThan_irrefl, andb_false_r. reflexivity.
Qed.

Lemma step_skipped (total i : nat) (article : Article) (st : Run) :
  shouldSync (decideFrom dateValue article
                (articleHistoryOf (articles (history st)) (id article))) = false ->
  step total i article st = st.
Proof.
  intros H. unfold processArticle, shouldSyncArticle. rewrite H. cbn [negb].
  destruct st. reflexivity.
Qed.

Lemma loop_skipped (total : nat) (batch : list Article) (i : nat) (st : Run) :
  (forall a, a ∈ batch ->
     shouldSync (decideFrom dateValue a
                   (articleHistoryOf (articles (history st)) (id a))) = false) ->
  run total i batch st = st.
Proof.
  revert i. induction batch as [|a rest IH]; intros i H; [reflexivity|].
  cbn [loop]. rewrite step_skipped by (apply H; left).
  apply IH. intros b B. apply H. right. exact B.
Qed.

End Skips.

Section Runs.

Variable dateValue : string -> option Z.
Variable turndown : string -> Completion string.
Variable originalSiteUrl : option string.
Variable post : nat -> Payload -> Completion string.
Variable patch : nat -> string -> Payload -> Completion string.
Variable now : nat -> string.
Variable endTime : string.

Local Abbreviation step := (processArticle dateValue turndown originalSiteUrl post patch now).
Local Abbreviation run := (loop dateValue turndown originalSiteUrl post patch now).
Local Abbreviation attempt := (SyncTerms.attempt dateValue turndown originalSiteUrl post patch).
Local Abbreviation failed := (SyncTerms.failed dateValue turndown originalSiteUrl post patch).
Local Abbreviation succeeded := (SyncTerms.succeeded dateValue turndown originalSiteUrl post patch).
Local Abbreviation entryAfter := (SyncTerms.entryAfter dateValue turndown originalSiteUrl post patch now).
Local Abbreviation syncArticles :=
  (Sync.syncArticles dateValue turndown originalSiteUrl post patch now endTime).

Lemma tally_none (f : nat -> Article -> bool) (batch : list Article) (i : nat) :
  tally f i batch = 0 ->
  forall k a, batch !! k = Some a -> f (i + k) a = false.
Proof.
  revert i. induction batch as [|b rest IH]; intros i H k a K; [discriminate|].
  cbn [tally] in H. destruct k as [|k].
  - injection K as <-. rewrite Nat.add_0_r. destruct (f i b); [lia|reflexivity].
  - replace (i + S k) with (S i + k) by lia. apply (IH (S i)); [lia|exact K].
Qed.

Lemma tally_both (before : gmap string ArticleHistory) (batch : list Article) (i : nat) :
  (forall a, a ∈ batch -> articleHistoryOf before (id a) = Undefined) ->
  tally (failed before) i batch + tally (succeeded before) i batch = length batch.
Proof.
  revert i. induction batch as [|b rest IH]; intros i H; [reflexivity|].
  cbn [tally length]. specialize (IH (S i) (fun a A => H a (list_elem_of_further _ _ _ A))).
  unfold SyncTerms.failed at 1, SyncTerms.succeeded at 1, SyncTerms.attempt.
  rewrite (H b) by left. cbn [decideFrom shouldSync].
  destruct (publish turndown originalSiteUrl post patch i b _); lia.
Qed.

Lemma loop_counts (total : nat) (batch : list Article) (i : nat) (st : Run) :
  syncCount st <= syncCount (run total i batch st)
  /\ errorCount st <= errorCount (run total i batch st)
  /\ syncCount (run total i batch st) + errorCount (run total i batch st)
     <= syncCount st + errorCount st + length batch.
Proof.
  revert i st. induction batch as [|a rest IH]; intros i st; [cbn; lia|].
  cbn [loop length].
  destruct (IH (S i) (step total i a st)) as (S1 & E1 & B1).
  destruct (step_counts dateValue turndown originalSiteUrl post patch now total i a st)
    as (Er & Sy & _).
  assert (failed (articles (history st)) i a && succeeded (articles (history st)) i a
          = false) as X.
  { unfold SyncTerms.failed, SyncTerms.succeeded.
    destruct (attempt i a _) as [[|]|]; reflexivity. }
  destruct (failed (articles (history st)) i a), (succeeded (articles (history st)) i a);
    try discriminate; lia.
Qed.

Lemma loop_waits (total : nat) (batch : list Article) (i : nat) (st : Run) :
  waits st = Nat.min (syncCount st) (total - 1) ->
  waits (run total i batch st) = Nat.min (syncCount (run total i batch st)) (total - 1).
Proof.
  revert i st. induction batch as [|a rest IH]; intros i st H; [exact H|].
  cbn [loop]. apply IH.
  unfold processArticle, shouldSyncArticle.
  destruct (shouldSync (decideFrom dateValue a _)); cbn [negb]; [|exact H].
  destruct (publish turndown originalSiteUrl post patch i a _);
    cbn [waits syncCount]; [|exact H].
  destruct (Nat.ltb_spec (S (syncCount st)) total); lia.
Qed.

Lemma loop_keeps (total : nat) (batch : list Article) (i : nat) (st : Run) (x : string) :
  is_Some (articles (history st) !! x) ->
  is_Some (articles (history (run total i batch st)) !! x).
Proof.
  revert i st. induction batch as [|a rest IH]; intros i st H; [exact H|].
  cbn [loop]. apply IH.
  destruct (decide (x = id a)) as [->|N].
  - rewrite (step_same dateValue turndown originalSiteUrl post patch now).
    unfold SyncTerms.entryAfter. destruct (attempt i a _) as [[q|]|]; eauto.
  - rewrite (step_other dateValue turndown originalSiteUrl post patch now) by exact N.
    exact H.
Qed.

(** X1: after a run over articles with pairwise different ids, deciding an
    article of the batch against the saved history gives [skip] when its
    publish returned, and the decision it had before otherwise. So when the
    run had no error, a second run over the same articles, whatever the
    publisher and the clock, publishes nothing, counts no error, exits with
    0 and saves the same entries. *)
Theorem rerun_skips_published (fetched : list Article) (loaded : History) :
  let batch := take maxArticles fetched in
  NoDup (map id batch) ->
  let first := syncArticles fetched loaded in
  (forall i a,
     batch !! i = Some a ->
     decideFrom dateValue a (articleHistoryOf (articles (saved first)) (id a))
     = if succeeded (articles loaded) i a then skipDecision
       else decideFrom dateValue a (articleHistoryOf (articles loaded) (id a)))
  /\ (errors first = 0 ->
      forall post' patch' now' endTime',
        let second :=
          Sync.syncArticles dateValue turndown originalSiteUrl post' patch'
            now' endTime' fetched (saved first) in
        synced second = 0 /\ errors second = 0 /\ exitCode second = 0
        /\ articles (saved second) = articles (saved first)).
Proof.
  intros batch D first.
  destruct (loop_spec dateValue turndown originalSiteUrl post patch now
              (length fetched) batch 0
              {| history := loaded; syncCount := 0; errorCount := 0; waits := 0 |}
              (articles loaded) D (fun a _ => eq_refl))
    as (P & _ & Er & _).
  assert (forall i a,
     batch !! i = Some a ->
     decideFrom dateValue a (articleHistoryOf (articles (saved first)) (id a))
     = if succeeded (articles loaded) i a then skipDecision
       else decideFrom dateValue a (articleHistoryOf (articles loaded) (id a))) as Q.
  { intros i a K. specialize (P i a K). cbn [Nat.add] in P.
    subst first. unfold Sync.syncArticles. fold batch. cbn [saved articles].
    unfold SyncTerms.entryAfter in P. unfold SyncTerms.succeeded.
    destruct (attempt i a (articles loaded)) as [[q|]|].
    - rewrite (articleHistoryOf_entry _ _ _ P).
      apply (decideFrom_own_entry dateValue now).
    - rewrite (articleHistoryOf_ext _ _ _ P). reflexivity.
    - rewrite (articleHistoryOf_ext _ _ _ P). reflexivity. }
  split; [exact Q|].
  intros Z post' patch' now' endTime' second.
  assert (errors first = tally (failed (articles loaded)) 0 batch) as Ef
    by (subst first; unfold Sync.syncArticles; fold batch; exact Er).
  rewrite Ef in Z.
  assert (forall a, a ∈ batch ->
            shouldSync (decideFrom dateValue a
                          (articleHistoryOf (articles (saved first)) (id a))) = false)
    as Sk.
  { intros a A. apply list_elem_of_lookup in A as [i K].
    rewrite (Q i a K).
    pose proof (tally_none _ _ _ Z i a K) as F. cbn [Nat.add] in F.
    unfold SyncTerms.failed, SyncTerms.succeeded in *.
    destruct (attempt i a (articles loaded)) as [[q|]|] eqn:At;
      [reflexivity|discriminate|].
    unfold SyncTerms.attempt in At.
    destruct (shouldSync (decideFrom dateValue a
                            (articleHistoryOf (articles loaded) (id a))));
      [discriminate|reflexivity]. }
  subst second. unfold Sync.syncArticles at 1 2 3 4. fold batch.
  rewrite (loop_skipped dateValue turndown originalSiteUrl post' patch' now')
    by exact Sk.
  repeat split.
Qed.

Lemma loop_other (total : nat) (batch : list Article) (i : nat) (st : Run) (x : string) :
  x ∉ map id batch ->
  articles (history (run total i batch st)) !! x = articles (history st) !! x.
Proof.
  revert i st. induction batch as [|a rest IH]; intros i st N; [reflexivity|].
  cbn [loop]. rewrite IH.
  - apply (step_other dateValue turndown originalSiteUrl post patch now).
    intros E. apply N. rewrite E. left.
  - intros I. apply N. right. exact I.
Qed.

Lemma loop_origin (total : nat) (batch : list Article) (i : nat) (st : Run) (x : string) :
  articles (history (run total i batch st)) !! x = articles (history st) !! x
  \/ exists k a q before,
       batch !! k = Some a /\ id a = x
       /\ attempt (i + k) a before = Some (Returns q)
       /\ articles (history (run total i batch st)) !! x
          = Some (entryFor now (i + k) a q).
Proof.
  revert i st. induction batch as [|a rest IH]; intros i st; [left; reflexivity|].
  cbn [loop].
  destruct (IH (S i) (step total i a st)) as [E|(k & b & q & before & K & I & At & E)].
  - destruct (decide (x = id a)) as [->|N].
    + rewrite (step_same dateValue turndown originalSiteUrl post patch now) in E.
      unfold SyncTerms.entryAfter in E.
      destruct (attempt i a (articles (history st))) as [[q|]|] eqn:At;
        [|left; exact E|left; exact E].
      right. exists 0, a, q, (articles (history st)).
      rewrite Nat.add_0_r. repeat split; assumption.
    + rewrite (step_other dateValue turndown originalSiteUrl post patch now) in E
        by exact N.
      left. exact E.
  - right. exists (S k), b, q, before.
    replace (i + S k) with (S i + k) by lia. repeat split; assumption.
Qed.

(** X2: an article published by one run and edited afterwards is updated by
    the next run, under the id Qiita gave it. Both runs are over articles
    with pairwise different ids; the article was published at position [i]
    of the first run with id [q], and at position [j] of the second run there
    is an article with the same microCMS id whose effective timestamp is
    present and strictly later. Then the decision of the second run is
    [update] with [q], the request of the second run is the update of [q],
    and the entry saved by the second run is the one of the update when it
    returns and the one of the first run when it throws. *)
Theorem later_edit_updates
    (fetched : list Article) (loaded : History) (i : nat) (a : Article) (q : string)
    (fetched2 : list Article) (j : nat) (a2 : Article) (t t2 : string)
    (post2 : nat -> Payload -> Completion string)
    (patch2 : nat -> string -> Payload -> Completion string)
    (now2 : nat -> string) (endTime2 : string) :
  let batch := take maxArticles fetched in
  let batch2 := take maxArticles fetched2 in
  NoDup (map id batch) ->
  batch !! i = Some a ->
  attempt i a (articles loaded) = Some (Returns q) ->
  NoDup (map id batch2) ->
  batch2 !! j = Some a2 ->
  id a2 = id a ->
  effectiveTimestamp a = Some t -> t <> "" ->
  effectiveTimestamp a2 = Some t2 -> t2 <> "" ->
  laterThan dateValue t2 t = true ->
  let first := syncArticles fetched loaded in
  let second :=
    Sync.syncArticles dateValue turndown originalSiteUrl post2 patch2 now2 endTime2
      fetched2 (saved first) in
  decideFrom dateValue a2 (articleHistoryOf (articles (saved first)) (id a2))
  = {| shouldSync := true; action := update; decidedQiitaId := Some q |}
  /\ SyncTerms.attempt dateValue turndown originalSiteUrl post2 patch2 j a2
       (articles (saved first))
     = Some (updateQiitaArticle turndown originalSiteUrl patch2 j a2 q)
  /\ articles (saved second) !! id a
     = match updateQiitaArticle turndown originalSiteUrl patch2 j a2 q with
       | Returns q2 => Some (entryFor now2 j a2 q2)
       | Throws => Some (entryFor now i a q)
       end.
Proof.
  intros batch batch2 D K At D2 K2 I T N T2 N2 L first second.
  destruct (loop_spec dateValue turndown originalSiteUrl post patch now
              (length fetched) batch 0
              {| history := loaded; syncCount := 0; errorCount := 0; waits := 0 |}
              (articles loaded) D (fun a _ => eq_refl))
    as (P & _).
  specialize (P i a K). cbn [Nat.add] in P.
  unfold SyncTerms.entryAfter in P. rewrite At in P.
  assert (articles (saved first) !! id a2 = Some (entryFor now i a q)) as S1.
  { rewrite I. subst first. unfold Sync.syncArticles. fold batch. exact P. }
  assert (decideFrom dateValue a2 (Entry (entryFor now i a q))
          = {| shouldSync := true; action := update; decidedQiitaId := Some q |}) as Dc.
  { unfold decideFrom, entryFor. cbn [microCMSUpdatedAt qiitaId].
    rewrite T, T2. unfold default, from_option, Datatypes.id.
    assert (truthy (Some t) = true) as Tt by (destruct t; [congruence|reflexivity]).
    assert (truthy (Some t2) = true) as Tt2 by (destruct t2; [congruence|reflexivity]).
    rewrite Tt, Tt2, L. reflexivity. }
  assert (SyncTerms.attempt dateValue turndown originalSiteUrl post2 patch2 j a2
            (articles (saved first))
          = Some (updateQiitaArticle turndown originalSiteUrl patch2 j a2 q)) as At2.
  { unfold SyncTerms.attempt. rewrite (articleHistoryOf_entry _ _ _ S1), Dc.
    reflexivity. }
  split; [rewrite (articleHistoryOf_entry _ _ _ S1); exact Dc|]. split; [exact At2|].
  destruct (loop_spec dateValue turndown originalSiteUrl post2 patch2 now2
              (length fetched2) batch2 0
              {| history := saved first; syncCount := 0; errorCount := 0; waits := 0 |}
              (articles (saved first)) D2 (fun a _ => eq_refl))
    as (P2 & _).
  specialize (P2 j a2 K2). cbn [Nat.add] in P2.
  unfold SyncTerms.entryAfter in P2. rewrite At2 in P2.
  subst second. unfold Sync.syncArticles at 1. fold batch2. cbn [saved articles].
  rewrite <- I.
  destruct (updateQiitaArticle turndown originalSiteUrl patch2 j a2 q) as [q2|];
    [exact P2|].
  rewrite P2. exact S1.
Qed.

(** X3: a run, whatever the ids of the articles. The articles published
    and the failed ones together are at most 50 and at most the fetched
    ones. The loop pauses once after each publish that returned, except after
    the last one when every fetched article was published. The exit code is
    0 exactly when no article failed, and 1 otherwise; the time of the run is
    stored in the history that is saved in either case. *)
Theorem run_is_bounded (fetched : list Article) (loaded : History) :
  let result := syncArticles fetched loaded in
  let st :=
    run (length fetched) 0 (take maxArticles fetched)
      {| history := loaded; syncCount := 0; errorCount := 0; waits := 0 |} in
  synced result + errors result <= Nat.min maxArticles (length fetched)
  /\ waits st = Nat.min (synced result) (length fetched - 1)
  /\ (exitCode result = 0 <-> errors result = 0)
  /\ (exitCode result = 1 <-> 0 < errors result)
  /\ lastSyncTime (saved result) = Some endTime.
Proof.
  intros result st.
  pose proof (loop_counts (length fetched) (take maxArticles fetched) 0
                {| history := loaded; syncCount := 0; errorCount := 0; waits := 0 |})
    as (_ & _ & B).
  pose proof (loop_waits (length fetched) (take maxArticles fetched) 0
                {| history := loaded; syncCount := 0; errorCount := 0; waits := 0 |}
                eq_refl) as W.
  fold st in B, W. cbn [syncCount errorCount Nat.add] in B.
  rewrite length_take in B.
  subst result. unfold Sync.syncArticles. fold st.
  cbn [synced errors exitCode saved lastSyncTime].
  split; [exact B|]. split; [exact W|].
  destruct (Nat.ltb_spec 0 (errorCount st)); repeat split; intros; try lia;
    try discriminate.
Qed.

(** X4: what a run saves under an id, whatever the ids of the articles. An
    entry that was loaded is never removed. An id that none of the first 50
    articles carries keeps what was loaded for it. Any other saved entry is
    either the loaded one or the entry written for an article of the batch
    with that id whose publish returned, with the id that publish gave. *)
Theorem saved_entries_origin (fetched : list Article) (loaded : History) (x : string) :
  let batch := take maxArticles fetched in
  let result := syncArticles fetched loaded in
  (is_Some (articles loaded !! x) -> is_Some (articles (saved result) !! x))
  /\ (x ∉ map id batch -> articles (saved result) !! x = articles loaded !! x)
  /\ (articles (saved result) !! x = articles loaded !! x
      \/ exists i a q before,
           batch !! i = Some a /\ id a = x
           /\ attempt i a before = Some (Returns q)
           /\ articles (saved result) !! x = Some (entryFor now i a q)).
Proof.
  intros batch result. subst result. unfold Sync.syncArticles. fold batch.
  cbn [saved articles].
  split; [|split].
  - apply (loop_keeps (length fetched) batch 0
             {| history := loaded; syncCount := 0; errorCount := 0; waits := 0 |}).
  - apply (loop_other (length fetched) batch 0
             {| history := loaded; syncCount := 0; errorCount := 0; waits := 0 |}).
  - apply (loop_origin (length fetched) batch 0
             {| history := loaded; syncCount := 0; errorCount := 0; waits := 0 |}).
Qed.

(** X5: a run over articles with pairwise different ids for none of which
    [history.articles[id]] finds anything: no entry is stored under the id
    and the id is not the name of a member every object inherits. Every
    article of the batch is sent as a new item: the published and the failed
    ones together are all of the batch, the smaller of 50 and the number
    fetched, and the entry saved for an article is the one of its create
    request when that returned and none when it threw. *)
Theorem first_run_creates (fetched : list Article) (loaded : History) :
  let batch := take maxArticles fetched in
  NoDup (map id batch) ->
  (forall a, a ∈ batch -> articleHistoryOf (articles loaded) (id a) = Undefined) ->
  let result := syncArticles fetched loaded in
  synced result + errors result = Nat.min maxArticles (length fetched)
  /\ forall i a,
       batch !! i = Some a ->
       attempt i a (articles loaded)
       = Some (createQiitaArticle turndown originalSiteUrl post i a)
       /\ articles (saved result) !! id a
          = match createQiitaArticle turndown originalSiteUrl post i a with
            | Returns q => Some (entryFor now i a q)
            | Throws => None
            end.
Proof.
  intros batch D E result.
  destruct (loop_spec dateValue turndown originalSiteUrl post patch now
              (length fetched) batch 0
              {| history := loaded; syncCount := 0; errorCount := 0; waits := 0 |}
              (articles loaded) D (fun a _ => eq_refl))
    as (P & _ & Er & Sy & _).
  subst result. unfold Sync.syncArticles. fold batch.
  cbn [synced errors saved articles].
  split.
  - rewrite Er, Sy. cbn [syncCount errorCount Nat.add].
    rewrite Nat.add_comm, (tally_both (articles loaded) batch 0 E).
    subst batch. apply length_take.
  - intros i a K. specialize (P i a K). cbn [Nat.add] in P.
    unfold SyncTerms.entryAfter in P.
    assert (a ∈ batch) as I by (apply list_elem_of_lookup; exists i; exact K).
    assert (attempt i a (articles loaded)
            = Some (createQiitaArticle turndown originalSiteUrl post i a)) as At.
    { unfold SyncTerms.attempt. rewrite (E a I). reflexivity. }
    split; [exact At|].
    rewrite At in P.
    destruct (createQiitaArticle turndown originalSiteUrl post i a) as [q|];
      [exact P|].
    rewrite P. specialize (E a I). unfold articleHistoryOf in E.
    destruct (articles loaded !! id a); [discriminate|reflexivity].
Qed.

End Runs.

Lemma rerun_skips_published_witness :
  let first :=
    Sync.syncArticles isoDateValue ConvertTerms.sampleEngine None samplePostOk
      samplePatch sampleNow "2024-03-01"
      [sampleArticle "a1" "2024-02-01"; sampleArticle "a2" "2024-02-02"]
      emptyHistory in
  decideFrom isoDateValue (sampleArticle "a2" "2024-02-02")
    (articleHistoryOf (articles (saved first)) "a2") = skipDecision.
Proof.
  assert (NoDup (map id (take maxArticles
            [sampleArticle "a1" "2024-02-01"; sampleArticle "a2" "2024-02-02"]))) as D.
  { apply NoDup_cons. split; [|apply NoDup_singleton].
    intros H. apply list_elem_of_singleton in H. discriminate. }
  exact (proj1 (rerun_skips_published isoDateValue ConvertTerms.sampleEngine None
                  samplePostOk samplePatch sampleNow "2024-03-01"
                  [sampleArticle "a1" "2024-02-01"; sampleArticle "a2" "2024-02-02"]
                  emptyHistory D) 1 _ eq_refl).
Defined.

Lemma later_edit_updates_witness :
  let first :=
    Sync.syncArticles isoDateValue ConvertTerms.sampleEngine None samplePostOk
      samplePatch sampleNow "2024-03-01" [sampleArticle "a1" "2024-02-01"]
      emptyHistory in
  decideFrom isoDateValue (sampleArticle "a1" "2024-02-05")
    (articleHistoryOf (articles (saved first)) "a1")
  = {| shouldSync := true; action := update; decidedQiitaId := Some "q-new" |}.
Proof.
  pose proof (later_edit_updates isoDateValue ConvertTerms.sampleEngine None
                samplePostOk samplePatch sampleNow "2024-03-01"
                [sampleArticle "a1" "2024-02-01"] emptyHistory
                0 (sampleArticle "a1" "2024-02-01") "q-new"
                [sampleArticle "a1" "2024-02-05"] 0 (sampleArticle "a1" "2024-02-05")
                "2024-02-01" "2024-02-05" samplePostOk samplePatch sampleNow
                "2024-04-01") as H.
  cbv zeta in H.
  apply H; try reflexivity; try discriminate; apply NoDup_singleton.
Defined.

Lemma first_run_creates_witness :
  let result :=
    Sync.syncArticles isoDateValue ConvertTerms.sampleEngine None samplePost
      samplePatch sampleNow "2024-03-01"
      [sampleArticle "a1" "2024-02-01"; sampleArticle "a2" "2024-02-02"]
      emptyHistory in
  synced result + errors result = 2.
Proof.
  assert (NoDup (map id (take maxArticles
            [sampleArticle "a1" "2024-02-01"; sampleArticle "a2" "2024-02-02"]))) as D.
  { apply NoDup_cons. split; [|apply NoDup_singleton].
    intros H. apply list_elem_of_singleton in H. discriminate. }
  refine (proj1 (first_run_creates isoDateValue ConvertTerms.sampleEngine None
                  samplePost samplePatch sampleNow "2024-03-01"
                  [sampleArticle "a1" "2024-02-01"; sampleArticle "a2" "2024-02-02"]
                  emptyHistory D _)).
  intros a A. repeat (apply elem_of_cons in A as [->|A]; [reflexivity|]).
  inversion A.
Defined.

End RunFacts.

(** ** The tags of a request *)

Module TagBounds.
Import Js Converter TagTerms MoreTerms JsFacts TagFacts.

Lemma filter_sublist {A} (p : A -> bool) (l : list A) : sublist (List.filter p l) l.
Proof.
  induction l as [|a l IH]; [constructor|].
  cbn [List.filter]. destruct (p a); [apply sublist_skip|apply sublist_cons]; exact IH.
Qed.

Lemma slice0_sublist {A} (l : list A) (k : Z) : sublist (slice0 l k) l.
Proof. unfold slice0. apply sublist_take. Qed.

Lemma slice0_length {A} (l : list A) (k : Z) :
  (0 <= k)%Z -> length (slice0 l k) <= Z.to_nat k.
Proof.
  intros H. unfold slice0.
  destruct (Z.ltb_spec k 0) as [N|_]; [lia|].
  rewrite length_take. lia.
Qed.

Lemma allTags_sources (categories : Categories) (tags : Value) :
  match tags with
  | VString (String _ _ as tags) =>
      fromCategories categories
      ++ List.filter (fun tag => 0 <? String.length tag) (map trim (split ","%char tags))
  | _ => fromCategories categories
  end = fromCategories categories ++ fromTags tags.
Proof.
  unfold fromTags. destruct tags as [| |[|c r]|b]; rewrite ?List.app_nil_r; reflexivity.
Qed.

(** The tags [processTags] keeps before it trims them. *)
Lemma processTags_kept (categories : Categories) (tags : Value) (maxTags : Z) :
  exists kept,
    processTags categories tags maxTags = map (fun tag => {| name := trim tag |}) kept
    /\ kept <> []
    /\ ((0 <= maxTags)%Z -> length kept <= Z.to_nat (Z.max 1 maxTags))
    /\ Forall (fun tag => trim tag <> "" /\ String.length (trim tag) <= 20) kept
    /\ (kept = ["AI"]
        \/ sublist kept (newSet (fromCategories categories ++ fromTags tags))).
Proof.
  unfold processTags. fold (fromCategories categories).
  rewrite allTags_sources.
  set (allTags := fromCategories categories ++ fromTags tags).
  set (filt := List.filter _ (newSet allTags)).
  pose proof (slice0_sublist filt maxTags) as Sub.
  pose proof (slice0_length filt maxTags) as Len.
  destruct (slice0 filt maxTags) as [|a w].
  - exists ["AI"]. split; [reflexivity|]. split; [discriminate|].
    split; [cbn [length]; lia|]. split; [|left; reflexivity].
    apply List.Forall_cons; [|apply List.Forall_nil].
    split; [discriminate|]. apply Nat.leb_le. reflexivity.
  - exists (a :: w). split; [reflexivity|]. split; [discriminate|].
    split; [|split].
    + intros H. specialize (Len H). lia.
    + apply Forall_forall. intros tag I.
      apply (fun H => elem_of_sublist _ _ _ H Sub) in I.
      apply list_elem_of_In, List.filter_In in I as [_ I].
      destruct (isEmpty tag); [discriminate|]. cbv zeta in I.
      apply andb_prop in I as [I1 I2]. split.
      * intros Z. rewrite Z in I1. discriminate.
      * apply Nat.leb_le. exact I2.
    + right. etransitivity; [exact Sub|]. apply filter_sublist.
Qed.

(** X8: [processTags] for any categories, any value of the tags field and
    any [maxTags]. The result is never empty; with [maxTags] not negative it
    has at most [maxTags] entries, and one when [maxTags] is 0, which is the
    default tag. Every name is trimmed, not empty and at most 20 long. A
    tags field that is not a non-empty string adds nothing. The names are
    pairwise different when no name of a category has a blank at either end;
    otherwise a name can come twice, since the duplicates are removed before
    the names are trimmed. *)
Theorem processTags_bounds (categories : Categories) (tags : Value) (maxTags : Z) :
  let out := processTags categories tags maxTags in
  1 <= length out
  /\ ((0 <= maxTags)%Z -> length out <= Z.to_nat (Z.max 1 maxTags))
  /\ (maxTags = 0%Z -> out = [ {| name := "AI" |} ])
  /\ Forall (fun t => name t <> "" /\ String.length (name t) <= 20
                      /\ trim (name t) = name t) out
  /\ (fromTags tags = [] -> out = processTags categories VUndefined maxTags)
  /\ ((forall tag, tag ∈ fromCategories categories -> trim tag = tag) ->
      NoDup (map name out))
  /\ processTags (CArray [CString " A"; CString "A"]) VUndefined 5
     = [ {| name := "A" |}; {| name := "A" |} ].
Proof.
  intros out.
  destruct (processTags_kept categories tags maxTags) as (kept & E & N & L & F & S).
  fold out in E.
  split; [|split; [|split; [|split; [|split; [|split]]]]].
  - rewrite E, length_map. destruct kept; [congruence|cbn; lia].
  - intros H. rewrite E, length_map. apply L, H.
  - intros ->. subst out. unfold processTags.
    rewrite (slice0_take _ 0). reflexivity.
  - rewrite E. apply Forall_fmap. eapply Forall_impl; [exact F|].
    intros tag [A B]. cbn [name]. split; [exact A|]. split; [exact B|].
    apply trim_idempotent.
  - intros T. subst out. unfold processTags. fold (fromCategories categories).
    rewrite allTags_sources, T, List.app_nil_r. reflexivity.
  - intros T. rewrite E.
    assert (forall tag, tag ∈ fromCategories categories ++ fromTags tags ->
              trim tag = tag) as Tr.
    { intros tag I. apply elem_of_app in I as [I|I]; [apply T, I|].
      unfold fromTags in I. destruct tags as [| |[|c r]|b]; try (inversion I; fail).
      apply list_elem_of_In, List.filter_In in I as [I _].
      apply List.in_map_iff in I as (x & <- & _). apply trim_idempotent. }
    assert (NoDup kept /\ forall tag, tag ∈ kept -> trim tag = tag) as [D K].
    { destruct S as [->|S].
      - split; [apply NoDup_singleton|].
        intros tag I. apply list_elem_of_singleton in I. subst tag. reflexivity.
      - unfold newSet in S. rewrite newSet_firstOccurrences, List.app_nil_l in S.
        split; [apply (sublist_NoDup _ _ (firstOccurrences_NoDup _ _) S)|].
        intros tag I. apply Tr. apply (fun H => elem_of_sublist _ _ _ H S) in I.
        apply list_elem_of_In. apply list_elem_of_In in I.
        apply (firstOccurrences_subset _ _ _ I). }
    rewrite <- list_fmap_compose.
    assert (name ∘ (fun tag => {| name := trim tag |}) <$> kept = kept) as ->;
      [|exact D].
    rewrite <- (list_fmap_id kept) at 2. apply list_fmap_ext.
    intros i tag I. cbn. apply K. apply list_elem_of_lookup. exists i. exact I.
  - reflexivity.
Qed.

End TagBounds.

(** ** Configuration, fetching and the request *)

Module IOFacts.
Import Js Converter Sync SyncIO SyncTerms MoreTerms JsFacts TagBounds.

Lemma absent_or_empty (v : option string) :
  negb (truthy v) = true <-> v = None \/ v = Some "".
Proof.
  destruct v as [[|c r]|]; cbn; split; intros H; try discriminate; auto;
    destruct H as [H|H]; discriminate.
Qed.

Lemma missing_spec (env : gmap string string) (key : string) :
  key ∈ missing env
  <-> key ∈ required /\ (env !! key = None \/ env !! key = Some "").
Proof.
  unfold missing. rewrite !list_elem_of_In, List.filter_In, absent_or_empty.
  reflexivity.
Qed.

(** X6: [validateConfig] passes exactly when each of the three required
    variables is set to a non-empty string. When it throws, the message is
    the fixed prefix followed by the required variables that are unset or
    empty, in the order of the list and separated by a comma and a blank.
    Setting any other variable, [ORIGINAL_SITE_URL] included, does not change
    the outcome. *)
Theorem validateConfig_requires (env : gmap string string) :
  (validateConfig env = Passed
   <-> forall key, key ∈ required -> exists v, env !! key = Some v /\ v <> "")
  /\ (forall message,
        validateConfig env = Failed message ->
        message = "Missing required environment variables: " +:+ join ", " (missing env)
        /\ missing env <> []
        /\ sublist (missing env) required
        /\ forall key, key ∈ missing env
                       <-> key ∈ required /\ (env !! key = None \/ env !! key = Some ""))
  /\ (forall key v, key ∉ required ->
        validateConfig (<[key := v]> env) = validateConfig env)
  /\ "ORIGINAL_SITE_URL" ∉ required.
Proof.
  split; [|split; [|split]].
  - unfold validateConfig. split.
    + intros P key K.
      destruct (missing env) as [|m ms] eqn:M; [|discriminate].
      destruct (env !! key) as [[|c r]|] eqn:E.
      * assert (key ∈ missing env) as I by (apply missing_spec; auto).
        rewrite M in I. inversion I.
      * exists (String c r). split; [reflexivity|discriminate].
      * assert (key ∈ missing env) as I by (apply missing_spec; auto).
        rewrite M in I. inversion I.
    + intros H. destruct (missing env) as [|m ms] eqn:M; [reflexivity|].
      assert (m ∈ missing env) as I by (rewrite M; left).
      apply missing_spec in I as [K [N|N]];
        destruct (H m K) as (v & V & Nv); congruence.
  - intros message. unfold validateConfig.
    destruct (missing env) as [|m ms] eqn:M; [discriminate|].
    cbn [length Nat.ltb Nat.leb]. intros [= <-].
    split; [reflexivity|]. split; [discriminate|]. rewrite <- M.
    split; [apply filter_sublist|apply missing_spec].
  - intros key v N. unfold validateConfig.
    assert (missing (<[key := v]> env) = missing env) as ->; [|reflexivity].
    unfold missing. apply List.filter_ext_in. intros k K.
    rewrite lookup_insert_ne; [reflexivity|].
    intros ->. apply N, list_elem_of_In. exact K.
  - unfold required. intros H.
    repeat (apply elem_of_cons in H as [H|H]; [discriminate|]).
    inversion H.
Qed.

Lemma published_has_timestamp (article : Article) :
  isPublished article = true -> truthy (effectiveTimestamp article) = true.
Proof.
  unfold isPublished, effectiveTimestamp, or_else.
  destruct (publishedAt article) as [[|c r]|]; cbn; try discriminate.
  intros _.
  destruct (updatedAt article) as [[|? ?]|], (revisedAt article) as [[|? ?]|];
    reflexivity.
Qed.

(** X7: [getMicroCMSArticles] throws when the request throws. Otherwise it
    returns the articles of the response that have a non-empty [publishedAt]
    in which the word draft does not occur, in the order of the response.
    Each of them has an effective timestamp, so the entry a run writes for
    it carries a [microCMSUpdatedAt] that a later run can compare. *)
Theorem getMicroCMSArticles_published (get : Completion (list Article)) :
  match get with
  | Throws => getMicroCMSArticles get = Throws
  | Returns contents =>
      exists fetched,
        getMicroCMSArticles get = Returns fetched
        /\ sublist fetched contents
        /\ (forall a, a ∈ fetched
                      <-> a ∈ contents
                          /\ exists p, publishedAt a = Some p /\ p <> ""
                                       /\ includes "draft" p = false)
        /\ (forall a, a ∈ fetched ->
              truthy (effectiveTimestamp a) = true
              /\ forall now i q,
                   truthy (microCMSUpdatedAt (entryFor now i a q)) = true)
  end.
Proof.
  destruct get as [contents|]; [|reflexivity].
  exists (List.filter isPublished contents).
  split; [reflexivity|]. split; [apply filter_sublist|]. split.
  - intros a. rewrite !list_elem_of_In, List.filter_In.
    unfold isPublished. split.
    + intros [I P]. split; [exact I|].
      destruct (publishedAt a) as [[|c r]|]; try discriminate.
      exists (String c r). split; [reflexivity|]. split; [discriminate|].
      cbn [isEmpty negb andb] in P. apply negb_true_iff. exact P.
    + intros [I (p & -> & N & D)]. split; [exact I|].
      rewrite D. destruct p; [congruence|reflexivity].
  - intros a I. apply list_elem_of_In, List.filter_In in I as [_ P].
    pose proof (published_has_timestamp a P) as T.
    split; [exact T|]. intros now i q. exact T.
Qed.

Lemma convert_returns (turndown : string -> Completion string)
    (html : Value) (options : ConvertOptions) :
  exists markdown,
    convert turndown html options = Returns markdown
    /\ match html with
       | VString (String _ _ as html) =>
           markdown = html \/ endsWith generateFooter markdown = true
       | _ => markdown = ""
       end.
Proof.
  destruct html as [| |[|c r]|b]; try (exists ""; split; reflexivity).
  unfold convert, try_catch, convertBody.
  destruct (turndown (String c r)) as [m|]; cbn [mbind completion_bind];
    [|exists (String c r); split; [reflexivity|left; reflexivity]].
  destruct (withExcerpt turndown options _) as [m2|]; cbn [mbind completion_bind mret completion_ret];
    [|exists (String c r); split; [reflexivity|left; reflexivity]].
  eexists. split; [reflexivity|]. right.
  rewrite <- !app_assoc. apply ConvertFacts.endsWith_app.
Qed.

(** X9: the request for an article. Building it never throws, so a create
    or an update throws only when the call to Qiita does. Both send the same
    payload: the title of the article, [private] false, between one and five
    tags with names that are not empty and at most 20 long, and a body that
    is empty when the content is not a non-empty string, and otherwise ends
    with the footer or, when the conversion failed, is the content as it came.
    The payload does not depend on [ORIGINAL_SITE_URL]: the link to the
    original article is handed to the converter, which does not use it. *)
Theorem request_payload (turndown : string -> Completion string)
    (originalSiteUrl : option string) (article : Article) :
  exists payload,
    payloadOf turndown originalSiteUrl article = Returns payload
    /\ payloadTitle payload = title article
    /\ private payload = false
    /\ 1 <= length (payloadTags payload) <= 5
    /\ Forall (fun t => name t <> "" /\ String.length (name t) <= 20)
         (payloadTags payload)
    /\ match content article with
       | VString (String _ _ as html) =>
           body payload = html \/ endsWith generateFooter (body payload) = true
       | _ => body payload = ""
       end
    /\ (forall url, payloadOf turndown url article = Returns payload)
    /\ (forall post i,
          createQiitaArticle turndown originalSiteUrl post i article = post i payload)
    /\ (forall patch i qiitaId,
          updateQiitaArticle turndown originalSiteUrl patch i article qiitaId
          = patch i qiitaId payload).
Proof.
  assert (forall url,
            payloadOf turndown url article
            = (markdown ← convert turndown (content article)
                             {| Converter.excerpt := Sync.excerpt article;
                                Converter.originalUrl := None;
                                Converter.originalTitle := VUndefined |};
               mret {| payloadTitle := title article; body := markdown;
                       payloadTags := processTags (category article) (tags article) 5;
                       private := false |})) as P.
  { intros url. unfold payloadOf. destruct (content article) as [| |[|c r]|b]; reflexivity. }
  destruct (convert_returns turndown (content article)
              {| Converter.excerpt := Sync.excerpt article;
                 Converter.originalUrl := None;
                 Converter.originalTitle := VUndefined |}) as (markdown & C & B).
  destruct (processTags_kept (category article) (tags article) 5)
    as (kept & E & N & L & F & _).
  exists {| payloadTitle := title article; body := markdown;
            payloadTags := processTags (category article) (tags article) 5;
            private := false |}.
  assert (forall url, payloadOf turndown url article
                      = Returns {| payloadTitle := title article; body := markdown;
                                   payloadTags := processTags (category article)
                                                    (tags article) 5;
                                   private := false |}) as R.
  { intros url. rewrite P, C. reflexivity. }
  split; [apply R|]. split; [reflexivity|]. split; [reflexivity|].
  cbn [payloadTags body]. split; [|split; [|split; [|split; [exact R|split]]]].
  - rewrite E, length_map. specialize (L ltac:(lia)).
    change (Z.to_nat (Z.max 1 5)) with 5 in L.
    split; [destruct kept; [congruence|cbn; lia]|exact L].
  - rewrite E. apply Forall_fmap. exact F.
  - exact B.
  - intros post i. unfold createQiitaArticle. rewrite R. reflexivity.
  - intros patch i qiitaId. unfold updateQiitaArticle. rewrite R. reflexivity.
Qed.

End IOFacts.

(** ** The run over one article *)

Module TestFacts.
Import Js Sync SyncIO TestSync SyncTerms MoreTerms.

Section Tests.

Variable dateValue : string -> option Z.
Variable turndown : string -> Completion string.
Variable originalSiteUrl : option string.
Variable post : nat -> Payload -> Completion string.
Variable patch : nat -> string -> Payload -> Completion string.
Variable now : nat -> string.
Variable endTime : string.

Local Abbreviation testSyncArticles :=
  (TestSync.testSyncArticles dateValue turndown originalSiteUrl post patch now endTime).
Local Abbreviation syncArticles :=
  (Sync.syncArticles dateValue turndown originalSiteUrl post patch now endTime).

Ltac settle :=
  repeat split; intros;
  repeat match goal with
         | H : _ \/ _ |- _ => destruct H
         | H : _ /\ _ |- _ => destruct H
         end;
  try discriminate; try congruence; try reflexivity;
  try (left; reflexivity); try (right; split; reflexivity).


End Tests.

End TestFacts.

(** ** More on the converter *)

Module ConverterFacts.
Import Js Dom Converter ConvertTerms MoreTerms JsFacts.

(** *** Strings *)

Lemma stripPrefix_inv (p s r : string) : stripPrefix p s = Some r -> s = p +:+ r.
Proof.
  revert s. induction p as [|a p IH]; intros s.
  - cbn [stripPrefix]. intros [= ->]. reflexivity.
  - destruct s as [|b s]; cbn [stripPrefix]; [discriminate|].
    destruct (Ascii.eqb_spec a b) as [->|_]; [|discriminate].
    intros H. rewrite app_cons, <- (IH _ H). reflexivity.
Qed.

Lemma stripPrefix_app (p r : string) : stripPrefix p (p +:+ r) = Some r.
Proof.
  induction p as [|a p IH]; [reflexivity|].
  rewrite app_cons. cbn [stripPrefix]. rewrite Ascii.eqb_refl. exact IH.
Qed.

Lemma takeWhile_dropWhile (p : ascii -> bool) (s : string) :
  s = takeWhile p s +:+ dropWhile p s.
Proof.
  induction s as [|c s IH]; [reflexivity|].
  cbn [takeWhile dropWhile]. destruct (p c); [|reflexivity].
  rewrite app_cons, <- IH. reflexivity.
Qed.

Lemma all_takeWhile (p : ascii -> bool) (s : string) : all p (takeWhile p s) = true.
Proof.
  induction s as [|c s IH]; [reflexivity|].
  cbn [takeWhile]. destruct (p c) eqn:E; [|reflexivity].
  cbn [all]. rewrite E, IH. reflexivity.
Qed.

Lemma isEmpty_takeWhile (p : ascii -> bool) (s : string) :
  isEmpty (takeWhile p s) = negb (firstIs p s).
Proof. destruct s as [|c s]; [reflexivity|]. cbn. destruct (p c); reflexivity. Qed.

Lemma without_app (p : ascii -> bool) (a b : string) :
  without p (a +:+ b) = without p a +:+ without p b.
Proof.
  induction a as [|c a IH]; [reflexivity|].
  rewrite app_cons. cbn [without]. destruct (p c); [exact IH|].
  rewrite app_cons, IH. reflexivity.
Qed.

Lemma without_all (p : ascii -> bool) (s : string) : all p s = true -> without p s = "".
Proof.
  induction s as [|c s IH]; [reflexivity|].
  cbn [all without]. intros H. apply andb_prop in H as [C H].
  rewrite C. apply IH, H.
Qed.

Lemma without_dropWhile (p : ascii -> bool) (s : string) :
  without p (dropWhile p s) = without p s.
Proof.
  induction s as [|c s IH]; [reflexivity|].
  cbn [dropWhile]. destruct (p c) eqn:E; [|reflexivity].
  cbn [without]. rewrite E. exact IH.
Qed.

Lemma without_replaceTrailing (p : ascii -> bool) (s : string) :
  without p (replaceTrailing p "" s) = without p s.
Proof.
  induction s as [|c s IH]; [reflexivity|].
  cbn [replaceTrailing]. destruct (p c && all p s) eqn:E.
  - symmetry. apply without_all. exact E.
  - cbn [without]. rewrite IH. reflexivity.
Qed.

Lemma length_dropWhile (p : ascii -> bool) (s : string) :
  String.length (dropWhile p s) <= String.length s.
Proof.
  induction s as [|c s IH]; [reflexivity|].
  cbn [dropWhile]. destruct (p c); cbn [String.length]; lia.
Qed.

Lemma length_replaceTrailing (p : ascii -> bool) (s : string) :
  String.length (replaceTrailing p "" s) <= String.length s.
Proof.
  induction s as [|c s IH]; [reflexivity|].
  cbn [replaceTrailing]. destruct (p c && all p s); cbn [String.length]; lia.
Qed.

Lemma dropWhile_all (p : ascii -> bool) (s : string) :
  all p s = true -> dropWhile p s = "".
Proof.
  induction s as [|c s IH]; [reflexivity|].
  cbn [all dropWhile]. intros H. apply andb_prop in H as [C H].
  rewrite C. apply IH, H.
Qed.

Lemma dropChars_app (a b : string) : dropChars (String.length a) (a +:+ b) = b.
Proof.
  induction a as [|c a IH]; [destruct b; reflexivity|].
  rewrite app_cons. cbn [String.length dropChars]. exact IH.
Qed.

Lemma length_dropChars (k : nat) (s : string) :
  String.length (dropChars k s) <= String.length s.
Proof.
  revert k. induction s as [|c s IH]; intros k; [destruct k; reflexivity|].
  destruct k as [|k]; [reflexivity|].
  cbn [dropChars String.length]. specialize (IH k). lia.
Qed.

(** *** The language of a code block *)

Lemma matchLanguage_eq (className : string) :
  matchLanguage className
  = match match stripPrefix "language-" className with
          | Some rest => let w := takeWhile isWord rest in
                         if isEmpty w then None else Some w
          | None => None
          end with
    | Some w => Some w
    | None => match className with
              | EmptyString => None
              | String _ r => matchLanguage r
              end
    end.
Proof. destruct className; reflexivity. Qed.

(** X11: the language of a code block, [className.match(/language-(\w+)/)].
    When there is one it is not empty, made of word characters, and stands
    in the class name right after [language-], at the leftmost place where
    [language-] is followed by a word character, and as far as the word
    characters go. There is none exactly when [language-] is nowhere in the
    class name followed by a word character. *)
Theorem matchLanguage_leftmost (className : string) :
  match matchLanguage className with
  | Some w =>
      w <> "" /\ all isWord w = true
      /\ exists pre post,
           className = pre +:+ "language-" +:+ w +:+ post
           /\ firstIs isWord post = false
           /\ forall pre' rest,
                className = pre' +:+ "language-" +:+ rest ->
                firstIs isWord rest = true ->
                String.length pre <= String.length pre'
  | None =>
      forall pre rest,
        className = pre +:+ "language-" +:+ rest -> firstIs isWord rest = false
  end.
Proof.
  induction className as [|ch r IH].
  - cbn. intros pre rest H. destruct pre; discriminate.
  - rewrite matchLanguage_eq.
    destruct (stripPrefix "language-" (String ch r)) as [rest0|] eqn:SP.
    + cbv zeta. destruct (isEmpty (takeWhile isWord rest0)) eqn:E.
      * assert (forall rest, String ch r = "language-" +:+ rest ->
                  firstIs isWord rest = false) as Here.
        { intros rest H. rewrite H, stripPrefix_app in SP. injection SP as ->.
          rewrite isEmpty_takeWhile in E. apply negb_true_iff. exact E. }
        destruct (matchLanguage r) as [w|].
        -- destruct IH as (N & A & pre & post & C & F & L).
           split; [exact N|]. split; [exact A|].
           exists (String ch pre), post. split; [rewrite app_cons, <- C; reflexivity|].
           split; [exact F|].
           intros pre' rest H T. destruct pre' as [|c' pre'].
           ++ rewrite app_nil_l in H. rewrite (Here _ H) in T. discriminate.
           ++ rewrite app_cons in H. injection H as _ H.
              cbn [String.length]. apply le_n_S. apply (L _ _ H T).
        -- intros pre rest H. destruct pre as [|c' pre].
           ++ rewrite app_nil_l in H. apply (Here _ H).
           ++ rewrite app_cons in H. injection H as _ H. apply (IH _ _ H).
      * split; [intros W; rewrite W in E; discriminate|].
        split; [apply all_takeWhile|].
        exists "", (dropWhile isWord rest0).
        split; [|split; [apply firstIs_dropWhile|intros; cbn; lia]].
        rewrite app_nil_l, <- takeWhile_dropWhile. apply stripPrefix_inv. exact SP.
    + assert (forall rest, String ch r = "language-" +:+ rest ->
                firstIs isWord rest = false) as Here.
      { intros rest H. rewrite H, stripPrefix_app in SP. discriminate. }
      destruct (matchLanguage r) as [w|].
      * destruct IH as (N & A & pre & post & C & F & L).
        split; [exact N|]. split; [exact A|].
        exists (String ch pre), post. split; [rewrite app_cons, <- C; reflexivity|].
        split; [exact F|].
        intros pre' rest H T. destruct pre' as [|c' pre'].
        -- rewrite app_nil_l in H. rewrite (Here _ H) in T. discriminate.
        -- rewrite app_cons in H. injection H as _ H.
           cbn [String.length]. apply le_n_S. apply (L _ _ H T).
      * intros pre rest H. destruct pre as [|c' pre].
        -- rewrite app_nil_l in H. apply (Here _ H).
        -- rewrite app_cons in H. injection H as _ H. apply (IH _ _ H).
Qed.

(** *** The added rules *)

Lemma filter_perm {A} (p : A -> bool) (l l' : list A) :
  l ≡ₚ l' -> List.filter p l ≡ₚ List.filter p l'.
Proof.
  induction 1 as [|x l l' _ IH|x y l|l l' l'' _ IH1 _ IH2].
  - reflexivity.
  - cbn [List.filter]. destruct (p x); [constructor|]; exact IH.
  - cbn [List.filter]. destruct (p x), (p y); try reflexivity. constructor.
  - etransitivity; eassumption.
Qed.

Lemma find_head_filter {A} (p : A -> bool) (l : list A) :
  List.find p l = head (List.filter p l).
Proof.
  induction l as [|a l IH]; [reflexivity|].
  cbn [List.find List.filter]. destruct (p a); [reflexivity|exact IH].
Qed.

Lemma short_perm {A} (l l' : list A) : l ≡ₚ l' -> length l' <= 1 -> l = l'.
Proof.
  intros P L. destruct l' as [|x [|y l']]; cbn [length] in L; [| |lia].
  - apply Permutation_nil_r. exact P.
  - apply Permutation_singleton_r. exact P.
Qed.

Lemma customRules_selected (n : Node) :
  length (List.filter (fun r => filter (snd r) n) customRules) <= 1.
Proof.
  destruct n as [d|name attrs kids]; [cbn; lia|].
  unfold customRules.
  cbn [List.filter snd filter strongRule codeBlockRule imageRule
       listItemRule tableRule tableRowRule tableCellRule tag isElement nodeName andb].
  destruct (String.eqb_spec (toLowerCase name) "strong") as [E1|_];
  destruct (String.eqb_spec (toLowerCase name) "img") as [E2|_];
  destruct (String.eqb_spec (toLowerCase name) "li") as [E3|_];
  destruct (String.eqb_spec (toLowerCase name) "table") as [E4|_];
  destruct (String.eqb_spec (toLowerCase name) "tr") as [E5|_];
  destruct (String.eqb_spec (toLowerCase name) "th") as [E6|_];
  destruct (String.eqb_spec (toLowerCase name) "td") as [E7|_];
  destruct (String.eqb_spec name "PRE") as [E8|_];
  try congruence; try (subst name; discriminate); cbn [orb andb length];
  try lia; destruct (firstChild _) as [c|]; cbn [length]; try lia;
  destruct (String.eqb (nodeName c) "CODE"); cbn [length]; lia.
Qed.

(** X12: the filters of the rules [setupCustomRules] adds exclude one
    another: at most one of the seven rules selects a given node, so the rule
    that renders it is the same in whatever order the rules are tried. A
    text node is selected by none, and so is an element whose name, in lower
    case, is none of strong, img, li, table, tr, th, td and which is not a
    PRE. *)
Theorem rule_filters_exclude (n : Node) :
  length (List.filter (fun r => filter (snd r) n) customRules) <= 1
  /\ (forall rules,
        rules ≡ₚ customRules ->
        snd <$> List.find (fun r => filter (snd r) n) rules = forNode n)
  /\ (isElement n = false -> forNode n = None)
  /\ (toLowerCase (nodeName n) ∉ ["strong"; "img"; "li"; "table"; "tr"; "th"; "td"] ->
      nodeName n <> "PRE" ->
      forNode n = None).
Proof.
  split; [apply customRules_selected|]. split; [|split].
  - intros rules P. unfold forNode. f_equal.
    rewrite !find_head_filter. f_equal.
    apply short_perm; [apply filter_perm, P|apply customRules_selected].
  - destruct n; [reflexivity|discriminate].
  - intros N P. destruct n as [d|name attrs kids]; [reflexivity|].
    cbn [nodeName] in N, P. unfold forNode, customRules.
    cbn [List.find snd filter strongRule codeBlockRule imageRule
         listItemRule tableRule tableRowRule tableCellRule tag isElement nodeName andb].
    destruct (String.eqb_spec (toLowerCase name) "strong") as [E|_];
      [exfalso; apply N; rewrite E; set_solver|].
    destruct (String.eqb_spec name "PRE") as [E|_]; [contradiction|]. cbn [andb].
    destruct (String.eqb_spec (toLowerCase name) "img") as [E|_];
      [exfalso; apply N; rewrite E; set_solver|].
    destruct (String.eqb_spec (toLowerCase name) "li") as [E|_];
      [exfalso; apply N; rewrite E; set_solver|].
    destruct (String.eqb_spec (toLowerCase name) "table") as [E|_];
      [exfalso; apply N; rewrite E; set_solver|].
    destruct (String.eqb_spec (toLowerCase name) "tr") as [E|_];
      [exfalso; apply N; rewrite E; set_solver|].
    destruct (String.eqb_spec (toLowerCase name) "th") as [E|_];
      [exfalso; apply N; rewrite E; set_solver|].
    destruct (String.eqb_spec (toLowerCase name) "td") as [E|_];
      [exfalso; apply N; rewrite E; set_solver|].
    reflexivity.
Qed.

(** *** [fixBoldSpacing] and the tidying of line breaks *)

Lemma spanNoStar_inv (s y t : string) : spanNoStar s = (y, t) -> s = y +:+ t.
Proof.
  revert y t. induction s as [|c s IH]; intros y t.
  - cbn. intros [= <- <-]. reflexivity.
  - cbn [spanNoStar]. destruct (isStar c); [intros [= <- <-]; reflexivity|].
    destruct (spanNoStar s) as [y0 t0]. intros [= <- <-].
    rewrite app_cons, <- (IH _ _ eq_refl). reflexivity.
Qed.

Lemma boldAt_inv (s y : string) :
  boldAt s = Some y -> exists t, s = "**" +:+ y +:+ "**" +:+ t.
Proof.
  unfold boldAt. destruct (stripPrefix "**" s) as [r|] eqn:P; [|discriminate].
  destruct (spanNoStar r) as [y0 t0] eqn:S.
  destruct (stripPrefix "**" t0) as [t|] eqn:Q; [|discriminate].
  intros [= ->]. exists t.
  apply stripPrefix_inv in P, Q. apply spanNoStar_inv in S.
  rewrite P, S, Q. reflexivity.
Qed.

Lemma all_penultimate (p : ascii -> bool) (s : string) :
  all p s = true -> all p (penultimate s) = true.
Proof.
  induction s as [|c s IH]; [reflexivity|].
  intros H. cbn [all] in H. apply andb_prop in H as [C H].
  destruct s as [|d [|e s]].
  - reflexivity.
  - cbn. rewrite C. reflexivity.
  - apply IH, H.
Qed.

Lemma length_penultimate (s : string) : String.length (penultimate s) <= String.length s.
Proof.
  induction s as [|c s IH]; [reflexivity|].
  destruct s as [|d [|e s]]; [cbn; lia|cbn; lia|].
  change (penultimate (String c (String d (String e s))))
    with (penultimate (String d (String e s))).
  cbn [String.length] in *. lia.
Qed.

Lemma group_of_span (s g : string) :
  paddedGroupAt s = Some g ->
  exists y, boldAt s = Some y
            /\ without isSpace g = without isSpace y
            /\ String.length g <= String.length y.
Proof.
  unfold paddedGroupAt. destruct (boldAt s) as [y|]; [|discriminate].
  destruct ((3 <=? String.length y) && firstIs isSpace y && lastIs isSpace y);
    [|discriminate].
  intros [= <-]. exists y. split; [reflexivity|].
  destruct (all isSpace y) eqn:A.
  - split; [|apply length_penultimate].
    rewrite (without_all _ _ A), (without_all _ _ (all_penultimate _ _ A)).
    reflexivity.
  - unfold trim. split.
    + rewrite without_replaceTrailing, without_dropWhile. reflexivity.
    + etransitivity; [apply length_replaceTrailing|apply length_dropWhile].
Qed.

Lemma replacePadded_dropChars (s : string) (k : nat) :
  without isSpace (replacePadded k s) = without isSpace (dropChars k s)
  /\ String.length (replacePadded k s) <= String.length (dropChars k s).
Proof.
  revert k. induction s as [|c r IH]; intros k; [destruct k; split; reflexivity|].
  destruct k as [|k]; [|apply IH].
  cbn [replacePadded dropChars].
  destruct (paddedGroupAt (String c r)) as [g|] eqn:G.
  - destruct (group_of_span _ _ G) as (y & B & W & L). rewrite B.
    destruct (boldAt_inv _ _ B) as (t & E).
    change ("**" +:+ y +:+ "**" +:+ t)
      with (String "*"%char (String "*"%char (y +:+ "**" +:+ t))) in E.
    injection E as -> ->.
    assert (dropChars (String.length y + 3) (String "*"%char (y +:+ "**" +:+ t)) = t)
      as D.
    { replace (String.length y + 3) with (String.length ("*" +:+ y +:+ "**"))
        by (rewrite !length_app; cbn; lia).
      rewrite <- (dropChars_app ("*" +:+ y +:+ "**") t) at 2.
      f_equal. rewrite !app_assoc. reflexivity. }
    destruct (IH (String.length y + 3)) as [IW IL]. rewrite D in IW, IL.
    split.
    + rewrite !without_app, IW, W.
      change (String "*"%char (String "*"%char (y +:+ "**" +:+ t)))
        with ("**" +:+ y +:+ "**" +:+ t).
      rewrite !without_app. reflexivity.
    + rewrite !length_app. cbn [String.length]. rewrite !length_app.
      cbn [String.length]. lia.
  - destruct (IH 0) as [IW IL].
    assert (dropChars 0 r = r) as D by (destruct r; reflexivity).
    rewrite D in IW, IL. split.
    + cbn [without]. rewrite IW. reflexivity.
    + cbn [String.length]. lia.
Qed.

Lemma boldParts_no_delimiter (s : string) (k : nat) :
  includes "**" s = false -> boldParts k s = [].
Proof.
  revert k. induction s as [|c r IH]; intros k; [reflexivity|].
  intros H.
  assert (stripPrefix "**" (String c r) = None /\ includes "**" r = false) as [P I].
  { destruct (stripPrefix "**" (String c r)) eqn:P.
    - change (includes "**" (String c r))
        with (match stripPrefix "**" (String c r) with
              | Some _ => true
              | None => includes "**" r
              end) in H.
      rewrite P in H. discriminate.
    - change (includes "**" (String c r))
        with (match stripPrefix "**" (String c r) with
              | Some _ => true
              | None => includes "**" r
              end) in H.
      rewrite P in H. split; [reflexivity|exact H]. }
  cbn [boldParts]. destruct k as [|k]; [|apply IH, I].
  unfold boldAt. rewrite P. apply IH, I.
Qed.

(** X13: [fixBoldSpacing] takes nothing from the text but white space: the
    result without its white space is the text without its white space, and
    it is never longer than the text. A text in which no two asterisks stand
    side by side is returned as it is. *)
Theorem fixBoldSpacing_deletes_blanks (markdown : string) :
  without isSpace (fixBoldSpacing markdown) = without isSpace markdown
  /\ String.length (fixBoldSpacing markdown) <= String.length markdown
  /\ (includes "**" markdown = false -> fixBoldSpacing markdown = markdown).
Proof.
  unfold fixBoldSpacing.
  destruct (replacePadded_dropChars markdown 0) as [W L].
  assert (dropChars 0 markdown = markdown) as D by (destruct markdown; reflexivity).
  rewrite D in W, L.
  split; [|split].
  - destruct (negb (existsb testPadded (boldParts 0 markdown))); [reflexivity|exact W].
  - destruct (negb (existsb testPadded (boldParts 0 markdown))); [lia|exact L].
  - intros I. rewrite (boldParts_no_delimiter _ 0 I). reflexivity.
Qed.

Lemma without_collapseLFs (s : string) (k : nat) :
  without isLF (collapseLFs k s) = without isLF s
  /\ String.length (collapseLFs k s) <= String.length s
  /\ (all isLF s = true -> all isLF (collapseLFs k s) = true).
Proof.
  revert k. induction s as [|c s IH]; intros k; [cbn; repeat split; auto|].
  cbn [collapseLFs without all String.length].
  destruct (isLF c) eqn:E.
  - destruct (IH (S k)) as (W & L & A).
    destruct (k <? 2); cbn [without all String.length]; rewrite ?E;
      (split; [exact W|split; [lia|exact A]]).
  - destruct (IH 0) as (W & L & A). cbn [without all String.length]. rewrite E.
    split; [rewrite W; reflexivity|]. split; [lia|discriminate].
Qed.

(** X14: the tidying of line breaks in [convert] takes nothing from the
    text but line breaks: the result without its line breaks is the text
    without its line breaks, and it is never longer. A text is left as it is
    exactly when it has no three line breaks in a row and none at either end;
    a text of line breaks only becomes empty. *)
Theorem tidy_only_removes_breaks (markdown : string) :
  without isLF (tidy markdown) = without isLF markdown
  /\ String.length (tidy markdown) <= String.length markdown
  /\ (tidy markdown = markdown
      <-> noRun 0 markdown = true /\ firstIs isLF markdown = false
          /\ endsWithLF markdown = false)
  /\ (all isLF markdown = true -> tidy markdown = "").
Proof.
  destruct (without_collapseLFs markdown 0) as (W & L & A).
  split; [|split; [|split]].
  - unfold tidy. rewrite without_replaceTrailing, without_dropWhile. exact W.
  - unfold tidy.
    etransitivity; [apply length_replaceTrailing|].
    etransitivity; [apply length_dropWhile|exact L].
  - split.
    + intros <-. split; [apply ConvertFacts.noRun_tidy|].
      split; [apply ConvertFacts.tidy_no_leading_break
             |apply ConvertFacts.tidy_no_trailing_break].
    + intros (R & F & E). apply ConvertFacts.tidy_fixed; assumption.
  - intros H. unfold tidy. rewrite (dropWhile_all _ _ (A H)). reflexivity.
Qed.

End ConverterFacts.
